(** * The injected game-engine runtime of [engine.ts]

    [getEngineScript] returns one of two JavaScript programs, Engine2D
    (canvas) or Engine3D (three.js).  This development embeds both programs
    as Rocq functions and proves the properties their specification states.

    Conventions of the embedding.
    - A JavaScript number is an exact rational ([Qc]); rounding, [NaN] and the
      infinities of IEEE doubles are outside the model.
    - A JavaScript object the engine allocates is a cell of a heap indexed by
      references ([ref]); [===] on objects is equality of references.
    - A string is a string of ASCII characters.
    - The closure variables of each engine ([sprites], [lastTime],
      [keysPressed], ...) are the fields of a state record, and every API
      function takes the state and returns the new one.

    The [App] component that hosts the engines is embedded the same way: a
    handler is a function from the component's state to the state after the
    updates it queues have been applied, and what the handler gets from
    outside (the clock, the AI service, [JSON.parse]) is an argument. *)

From Stdlib Require Import QArith Qcanon Ascii String.
From stdpp Require Import base option list strings gmap numbers pretty.

Local Open Scope Qc_scope.

(** Numeric literals of the source: [num 20] is the number [20]. *)
Abbreviation num := Qc_of_Z (only parsing).

(** ** JavaScript values and the operators the engines use *)
Module JS.

Inductive value :=
| Undefined
| Null
| Bool (b : bool)
| Num (n : Qc)
| Str (s : string)
| Function (name : string)   (* a built-in function, named *)
| Object (name : string).    (* a built-in object, named *)

#[global] Instance value_eq_dec : EqDecision value.
Proof. solve_decision. Defined.

(** [ToBoolean]. *)
Definition truthy (v : value) : bool :=
  match v with
  | Undefined | Null => false
  | Bool b => b
  | Num n => negb (bool_decide (n = 0))
  | Str s => negb (bool_decide (s = ""))
  | Function _ | Object _ => true
  end.

(** [a || b]. *)
Definition logical_or (a b : value) : value := if truthy a then a else b.

(** [typeof v]. *)
Definition typeof (v : value) : string :=
  match v with
  | Undefined => "undefined"
  | Null => "object"
  | Bool _ => "boolean"
  | Num _ => "number"
  | Str _ => "string"
  | Function _ => "function"
  | Object _ => "object"
  end.

(** An object literal [{ k1: v1, ... }]: its own properties, in order. *)
Definition literal := list (string * value).

Fixpoint own_property (k : string) (o : literal) : option value :=
  match o with
  | [] => None
  | (k', v) :: rest => if String.eqb k k' then Some v else own_property k rest
  end.

(** What every object literal inherits from [Object.prototype]. *)
Definition Object_prototype : literal :=
  [ ("constructor", Function "Object");
    ("__defineGetter__", Function "__defineGetter__");
    ("__defineSetter__", Function "__defineSetter__");
    ("hasOwnProperty", Function "hasOwnProperty");
    ("__lookupGetter__", Function "__lookupGetter__");
    ("__lookupSetter__", Function "__lookupSetter__");
    ("isPrototypeOf", Function "isPrototypeOf");
    ("propertyIsEnumerable", Function "propertyIsEnumerable");
    ("toString", Function "toString");
    ("valueOf", Function "valueOf");
    ("__proto__", Object "Object.prototype");
    ("toLocaleString", Function "toLocaleString") ].

(** [o[k]] on an object literal: own properties first, then the prototype. *)
Definition get (o : literal) (k : string) : value :=
  match own_property k o with
  | Some v => v
  | None => default Undefined (own_property k Object_prototype)
  end.

(** [String.prototype.toLowerCase] on ASCII. *)
Definition lower (c : ascii) : ascii :=
  let n := nat_of_ascii c in
  if ((65 <=? n) && (n <=? 90))%nat then ascii_of_nat (n + 32) else c.

Fixpoint toLowerCase (s : string) : string :=
  match s with
  | EmptyString => EmptyString
  | String c rest => String (lower c) (toLowerCase rest)
  end.

(** [s.replace(/ /g, '')]. *)
Fixpoint remove_spaces (s : string) : string :=
  match s with
  | EmptyString => EmptyString
  | String c rest =>
      if Ascii.eqb c " " then remove_spaces rest else String c (remove_spaces rest)
  end.

(** [Set.prototype.has] on a set of strings. *)
Definition has (set : gset string) (v : value) : bool :=
  match v with
  | Str s => bool_decide (s ∈ set)
  | _ => false
  end.

End JS.

Import JS.

(** An object reference. *)
Definition ref := nat.

(** ** Engine2D (lines 5-88 of [engine.ts]) *)
Module Engine2D.

(** A sprite object.  [velocityY] is [Undefined] until game code or
    [applyGravity] sets it; [extra] holds every other property. *)
Record sprite := Sprite {
  x : Qc;
  y : Qc;
  width : Qc;
  height : Qc;
  asset : string;
  color : value;
  velocityY : value;
  extra : literal;
}.

(** The [properties] bag of [create.sprite].  A key that names an engine
    field carries a value of that field's type. *)
Record properties := Properties {
  p_x : option Qc;
  p_y : option Qc;
  p_width : option Qc;
  p_height : option Qc;
  p_asset : option string;
  p_color : option value;
  p_velocityY : option value;
  p_extra : literal;
}.

(** [{}]. *)
Definition no_properties : properties :=
  Properties None None None None None None None [].

(** The argument of [create.sprite]: [width], [height] and [properties]
    may be left out ([None] is [undefined]). *)
Record sprite_spec := SpriteSpec {
  s_x : Qc;
  s_y : Qc;
  s_width : option Qc;
  s_height : option Qc;
  s_asset : string;
  s_properties : option properties;
}.

(** What game code reaches through [window.Engine] and the handles it
    holds: the sprite list, the sprite objects and the scratch store.  The
    heap holds every sprite-shaped object of the page; a reference it does
    not hold reads as a falsy value. *)
Record world := World {
  sprites : list ref;
  heap : gmap ref sprite;
  data : gmap string value;
}.

(** The update callback: it gets the delta time, may poll the keyboard and
    acts on the world. *)
Definition callback := Qc → gset string → world → world.

Record state := State {
  the_world : world;
  keysPressed : gset string;
  onUpdateCallback : option callback;   (* [None]: a falsy value *)
  lastTime : Qc;
  canvas_width : Qc;
  canvas_height : Qc;
}.

(** The state after the script's top level has run, for a window of the
    given size. *)
Definition init (innerWidth innerHeight : Qc) : state :=
  State (World [] ∅ ∅) ∅ (Some (λ _ _ w, w)) 0 innerWidth innerHeight.

(** [onUpdate: (callback) => { onUpdateCallback = callback; }] *)
Definition onUpdate (st : state) (cb : option callback) : state :=
  State (the_world st) (keysPressed st) cb (lastTime st)
        (canvas_width st) (canvas_height st).

Definition setData (w : world) (key : string) (v : value) : world :=
  World (sprites w) (heap w) (<[key := v]> (data w)).

Definition getData (w : world) (key : string) : value :=
  default Undefined (data w !! key).

Definition colorMap : literal :=
  [ ("player", Str "skyblue"); ("enemy", Str "tomato");
    ("platform", Str "lightgreen"); ("coin", Str "gold");
    ("default", Str "white") ].

(** The object literal
    [{ x, y, width, height, asset, color: colorMap[asset] || colorMap.default, ...properties }]:
    a key of [properties] replaces the field written before the spread. *)
Definition new_sprite (spec : sprite_spec) : sprite :=
  let width := default (num 20) (s_width spec) in
  let height := default (num 20) (s_height spec) in
  let properties := default no_properties (s_properties spec) in
  Sprite (default (s_x spec) (p_x properties))
         (default (s_y spec) (p_y properties))
         (default width (p_width properties))
         (default height (p_height properties))
         (default (s_asset spec) (p_asset properties))
         (default (logical_or (get colorMap (s_asset spec)) (get colorMap "default"))
                  (p_color properties))
         (default Undefined (p_velocityY properties))
         (p_extra properties).

(** [create.sprite]: allocates the object, pushes it, returns the handle. *)
Definition create_sprite (w : world) (spec : sprite_spec) : world * ref :=
  let r := fresh (dom (heap w)) in
  (World (sprites w ++ [r]) (<[r := new_sprite spec]> (heap w)) (data w), r).

(** [destroy: sprites = sprites.filter(s => s !== spriteToDestroy)] *)
Definition destroy (w : world) (spriteToDestroy : ref) : world :=
  World (filter (λ s, s ≠ spriteToDestroy) (sprites w)) (heap w) (data w).

Definition keyMap : literal :=
  [ ("space", Str "Space"); ("arrowleft", Str "ArrowLeft");
    ("arrowright", Str "ArrowRight"); ("arrowup", Str "ArrowUp");
    ("arrowdown", Str "ArrowDown") ].

(** [input.isPressed] *)
Definition isPressed (keysPressed : gset string) (key : string) : bool :=
  let mappedKey := remove_spaces (toLowerCase key) in
  has keysPressed (logical_or (get keyMap mappedKey) (Str key)).

(** [physics.applyGravity], on the sprite object; [None] for
    [gravityForce] is the defaulted parameter. *)
Definition applyGravity (s : sprite) (gravityForce : option Qc) : sprite :=
  let gravityForce := default (num 980) gravityForce in
  let v0 :=
    match velocityY s with
    | Num v => v      (* typeof sprite.velocityY is 'number' *)
    | _ => 0          (* sprite.velocityY = 0 *)
    end in
  let v1 := v0 + gravityForce * (num 1 / num 60) in
  Sprite (x s) (y s + v1 * (num 1 / num 60)) (width s) (height s)
         (asset s) (color s) (Num v1) (extra s).

(** [applyGravity] on a handle: the object is updated in place. *)
Definition applyGravity_at (w : world) (r : ref) (gravityForce : option Qc) : world :=
  World (sprites w) (alter (λ s, applyGravity s gravityForce) r (heap w)) (data w).

(** [physics.checkCollision]; [None] is a falsy argument. *)
Definition checkCollision (spriteA spriteB : option sprite) : bool :=
  match spriteA, spriteB with
  | Some a, Some b =>
      bool_decide (x a < x b + width b) &&
      bool_decide (x b < x a + width a) &&      (* a.x + a.width > b.x *)
      bool_decide (y a < y b + height b) &&
      bool_decide (y b < y a + height a)        (* a.y + a.height > b.y *)
  | _, _ => false
  end.

(** [physics.getCollisions] *)
Definition getCollisions (w : world) (sprite : ref) : list ref :=
  filter (λ other, sprite ≠ other ∧
                   checkCollision (heap w !! sprite) (heap w !! other) = true)
         (sprites w).

(** What a frame does to the page. *)
Inductive effect :=
| clearRect (x y w h : Qc)
| update (deltaTime : Qc)            (* the call [onUpdateCallback(deltaTime)] *)
| fillStyle (v : value)              (* the assignment [ctx.fillStyle = v] *)
| fillRect (x y w h : Qc)
| requestAnimationFrame.

(** The body of [sprites.forEach(...)]. *)
Definition draw_sprite (s : sprite) : list effect :=
  [ fillStyle (color s); fillRect (x s) (y s) (width s) (height s) ].

Definition draw (w : world) : list effect :=
  r ← sprites w; s ← option_list (heap w !! r); draw_sprite s.

(** [deltaTime || 0] on numbers. *)
Definition or_zero (deltaTime : Qc) : Qc :=
  if bool_decide (deltaTime = 0) then 0 else deltaTime.

(** [gameLoop(timestamp)]: one animation frame. *)
Definition gameLoop (st : state) (timestamp : Qc) : state * list effect :=
  let deltaTime := (timestamp - lastTime st) / num 1000 in
  let '(w, called) :=
    match onUpdateCallback st with
    | Some cb => (cb (or_zero deltaTime) (keysPressed st) (the_world st),
                  [update (or_zero deltaTime)])
    | None => (the_world st, [])
    end in
  (State w (keysPressed st) (onUpdateCallback st) timestamp
         (canvas_width st) (canvas_height st),
   clearRect 0 0 (canvas_width st) (canvas_height st)
     :: called ++ draw w ++ [requestAnimationFrame]).

(** The palette as the specification words it: four kinds have a colour,
    every other kind is white. *)
Definition spec_palette (kind : string) : string :=
  if decide (kind = "player") then "skyblue"
  else if decide (kind = "enemy") then "tomato"
  else if decide (kind = "platform") then "lightgreen"
  else if decide (kind = "coin") then "gold"
  else "white".

(** The palette property read for every sprite: the frame drawn after
    [create.sprite] fills the new sprite, last in the list, in the palette
    colour of its kind. *)
Definition palette_for_every_sprite : Prop :=
  ∀ (w : world) (spec : sprite_spec),
    ∃ before x y width height,
      draw (create_sprite w spec).1
      = before ++ [ fillStyle (Str (spec_palette (s_asset spec)));
                    fillRect x y width height ].

(** The frames the browser runs, one per timestamp: what each one does. *)
Fixpoint frames (st : state) (timestamps : list Qc) : list (list effect) :=
  match timestamps with
  | [] => []
  | t :: rest => (gameLoop st t).2 :: frames (gameLoop st t).1 rest
  end.

(** The delta times a frame hands to the update callback, call by call. *)
Definition deltas (fx : list effect) : list Qc :=
  e ← fx; match e with update deltaTime => [deltaTime] | _ => [] end.

(** The live collection of a world the API has built: no sprite twice, and
    every sprite an object. *)
Definition well_formed (w : world) : Prop :=
  NoDup (sprites w) ∧ ∀ r, r ∈ sprites w → is_Some (heap w !! r).

(** [document.addEventListener('keydown', (e) => keysPressed.add(e.code))] *)
Definition keydown (st : state) (code : string) : state :=
  State (the_world st) ({[ code ]} ∪ keysPressed st) (onUpdateCallback st)
        (lastTime st) (canvas_width st) (canvas_height st).

(** [document.addEventListener('keyup', (e) => keysPressed.delete(e.code))] *)
Definition keyup (st : state) (code : string) : state :=
  State (the_world st) (keysPressed st ∖ {[ code ]}) (onUpdateCallback st)
        (lastTime st) (canvas_width st) (canvas_height st).



End Engine2D.

(** ** The parts of three.js that Engine3D calls *)
Module THREE.

Record Vector3 := Vec3 { x : Qc; y : Qc; z : Qc }.

#[global] Instance Vector3_eq_dec : EqDecision Vector3.
Proof. solve_decision. Defined.

(** [a.add(v)] *)
Definition add (a v : Vector3) : Vector3 :=
  Vec3 (x a + x v) (y a + y v) (z a + z v).

(** [a.lerp(v, alpha)]: [a.x += (v.x - a.x) * alpha], and so for y and z. *)
Definition lerp (a v : Vector3) (alpha : Qc) : Vector3 :=
  Vec3 (x a + (x v - x a) * alpha)
       (y a + (y v - y a) * alpha)
       (z a + (z v - z a) * alpha).

Inductive geometry :=
| BoxGeometry (width height depth : Qc)
| SphereGeometry (radius widthSegments heightSegments : Qc)
| CapsuleGeometry (radius height capSegments radialSegments : Qc).

Inductive material :=
| MeshNormalMaterial
| MeshPhongMaterial (color : Z)
| MeshLambertMaterial (color : Z).

Inductive node :=
| Mesh (g : geometry) (m : material)
| DirectionalLight (color : Z) (intensity : Qc)
| PointLight (color : Z) (intensity : Qc)
| AmbientLight (color : Z) (intensity : Qc)
| GridHelper (size divisions : Qc) (color1 color2 : Z).

Record Object3D := Obj3D {
  node_of : node;
  position : Vector3;
  userData : literal;
}.

(** [object.geometry] and [object.material], [None] where the property is
    absent.  A grid helper is a line object and has both. *)
Inductive resource := geometry_of (r : ref) | material_of (r : ref).

Definition has_geometry (o : Object3D) : bool :=
  match node_of o with
  | Mesh _ _ | GridHelper _ _ _ _ => true
  | _ => false
  end.

Definition has_material (o : Object3D) : bool := has_geometry o.

(** [parent.remove(object)]: the child is taken out where [indexOf] finds it. *)
Fixpoint remove (object : ref) (children : list ref) : list ref :=
  match children with
  | [] => []
  | c :: rest => if decide (c = object) then rest else c :: remove object rest
  end.

(** [parent.add(object)]: the object leaves its parent and is pushed. *)
Definition add_child (object : ref) (children : list ref) : list ref :=
  remove object children ++ [object].

End THREE.

(** ** Engine3D (lines 90-217 of [engine.ts]) *)
Module Engine3D.
Import THREE.

(** What game code reaches through [window.Engine] and the handles it
    holds. *)
Record world := World {
  scene : list ref;                 (* scene.children *)
  meshes : list ref;
  heap : gmap ref Object3D;
  camera_position : Vector3;
  camera_target : option Vector3;   (* the point of the last camera.lookAt *)
  cameraTarget : option ref;        (* [None]: null *)
  cameraOffset : Vector3;
  data : gmap string value;
  disposed : list resource;         (* the dispose() calls made so far *)
}.

Definition callback := Qc → gset string → world → world.

Record state := State {
  the_world : world;
  keysPressed : gset string;
  onUpdateCallback : option callback;
}.

(** The grid helper and the ambient light the script adds at top level. *)
Definition gridHelper : ref := 0%nat.
Definition ambient : ref := 1%nat.

Definition init : state :=
  State (World [gridHelper; ambient] []
               (<[ambient := Obj3D (AmbientLight 16777215 (num 3 / num 10)) (Vec3 0 0 0) []]>
                  (<[gridHelper := Obj3D (GridHelper (num 100) (num 100) 4473924 4473924)
                                         (Vec3 0 0 0) []]> ∅))
               (Vec3 0 0 (num 10)) None None (Vec3 0 (num 5) (num 10)) ∅ [])
        ∅ (Some (λ _ _ w, w)).

Definition onUpdate (st : state) (cb : option callback) : state :=
  State (the_world st) (keysPressed st) cb.

Record mesh_spec := MeshSpec {
  m_geometry : string;
  m_position : option Vector3;       (* default [0,0,0] *)
  m_material : option string;        (* default 'normal' *)
  m_properties : option literal;     (* default {} *)
}.

Definition new_mesh (spec : mesh_spec) : Object3D :=
  let geom :=
    if String.eqb (m_geometry spec) "sphere"
    then SphereGeometry (num 1 / num 2) (num 32) (num 16)
    else if String.eqb (m_geometry spec) "capsule"
    then CapsuleGeometry (num 1 / num 2) (num 1 / num 2) (num 16) (num 8)
    else BoxGeometry 1 1 1 in
  let material := default "normal" (m_material spec) in
  let mat :=
    if String.eqb material "phong" then MeshPhongMaterial 13421772
    else if String.eqb material "lambert" then MeshLambertMaterial 13421772
    else MeshNormalMaterial in
  Obj3D (Mesh geom mat)
        (default (Vec3 0 0 0) (m_position spec))
        (default [] (m_properties spec)).

(** [create.mesh] *)
Definition create_mesh (w : world) (spec : mesh_spec) : world * ref :=
  let r := fresh (dom (heap w)) in
  (World (add_child r (scene w)) (meshes w ++ [r]) (<[r := new_mesh spec]> (heap w))
         (camera_position w) (camera_target w) (cameraTarget w) (cameraOffset w)
         (data w) (disposed w), r).

Record light_spec := LightSpec {
  l_type : string;
  l_color : option Z;                (* default 0xffffff *)
  l_intensity : option Qc;           (* default 1 *)
  l_position : option Vector3;       (* default [0, 10, 0] *)
}.

Definition new_light (spec : light_spec) : Object3D :=
  let color := default 16777215%Z (l_color spec) in
  let intensity := default 1 (l_intensity spec) in
  let position := default (Vec3 0 (num 10) 0) (l_position spec) in
  if String.eqb (l_type spec) "directional"
  then Obj3D (DirectionalLight color intensity) position []
  else if String.eqb (l_type spec) "point"
  then Obj3D (PointLight color intensity) position []
  else Obj3D (AmbientLight color intensity) (Vec3 0 0 0) [].

(** [create.light] *)
Definition create_light (w : world) (spec : light_spec) : world * ref :=
  let r := fresh (dom (heap w)) in
  (World (add_child r (scene w)) (meshes w) (<[r := new_light spec]> (heap w))
         (camera_position w) (camera_target w) (cameraTarget w) (cameraOffset w)
         (data w) (disposed w), r).

(** [destroy(object3D)].  [None] for the argument is [null] or
    [undefined], on which reading [object3D.geometry] throws; the result
    [None] is that TypeError.  A reference outside the heap is an object
    the engine did not make, with no geometry and no material. *)
Definition destroy (w : world) (object3D : option ref) : option world :=
  match object3D with
  | None => None
  | Some r =>
      let geom :=
        if default false (has_geometry <$> heap w !! r) then [geometry_of r] else [] in
      let mat :=
        if default false (has_material <$> heap w !! r) then [material_of r] else [] in
      Some (World (remove r (scene w))
                  (filter (λ m, m ≠ r) (meshes w))
                  (heap w) (camera_position w) (camera_target w)
                  (cameraTarget w) (cameraOffset w) (data w)
                  (disposed w ++ geom ++ mat))
  end.

Definition keyMap : literal :=
  [ ("space", Str "Space"); ("arrowleft", Str "ArrowLeft");
    ("arrowright", Str "ArrowRight"); ("arrowup", Str "ArrowUp");
    ("arrowdown", Str "ArrowDown"); ("keyw", Str "KeyW");
    ("keya", Str "KeyA"); ("keys", Str "KeyS"); ("keyd", Str "KeyD") ].

(** [input.isPressed] *)
Definition isPressed (keysPressed : gset string) (key : string) : bool :=
  let mappedKey := remove_spaces (toLowerCase key) in
  has keysPressed (logical_or (get keyMap mappedKey) (Str key)).

(** [camera.follow(meshToFollow, offset = [0, 5, 10])] *)
Definition follow (w : world) (meshToFollow : option ref)
    (offset : option Vector3) : world :=
  World (scene w) (meshes w) (heap w) (camera_position w) (camera_target w)
        meshToFollow (default (Vec3 0 (num 5) (num 10)) offset)
        (data w) (disposed w).

(** [camera.lookAt(x, y, z)] *)
Definition lookAt (w : world) (x y z : Qc) : world :=
  World (scene w) (meshes w) (heap w) (camera_position w) (Some (Vec3 x y z))
        None (cameraOffset w) (data w) (disposed w).

Inductive effect :=
| update (deltaTime : Qc)          (* the call [onUpdateCallback(deltaTime)] *)
| render.

(** The camera update of [animate]: [if (cameraTarget) { ... }].  Reading
    [position] off a target that is no scene object throws ([None]). *)
Definition update_camera (w : world) : option world :=
  match cameraTarget w with
  | None => Some w
  | Some r =>
      o ← heap w !! r;
      let targetPosition := add (position o) (cameraOffset w) in
      Some (World (scene w) (meshes w) (heap w)
                  (lerp (camera_position w) targetPosition (num 1 / num 10))
                  (Some (position o))
                  (cameraTarget w) (cameraOffset w) (data w) (disposed w))
  end.

(** [if (onUpdateCallback) { onUpdateCallback(deltaTime); }] *)
Definition call_update (st : state) (deltaTime : Qc) : world * list effect :=
  match onUpdateCallback st with
  | Some cb => (cb deltaTime (keysPressed st) (the_world st), [update deltaTime])
  | None => (the_world st, [])
  end.

(** [animate()]: one frame; [deltaTime] is what [clock.getDelta()] returns. *)
Definition animate (st : state) (deltaTime : Qc) : option (state * list effect) :=
  let '(w, called) := call_update st deltaTime in
  w' ← update_camera w;
  Some (State w' (keysPressed st) (onUpdateCallback st), called ++ [render]).

(** [document.addEventListener('keydown', (e) => keysPressed.add(e.code))] *)
Definition keydown (st : state) (code : string) : state :=
  State (the_world st) ({[ code ]} ∪ keysPressed st) (onUpdateCallback st).

(** [document.addEventListener('keyup', (e) => keysPressed.delete(e.code))] *)
Definition keyup (st : state) (code : string) : state :=
  State (the_world st) (keysPressed st ∖ {[ code ]}) (onUpdateCallback st).

Definition setData (w : world) (key : string) (v : value) : world :=
  World (scene w) (meshes w) (heap w) (camera_position w) (camera_target w)
        (cameraTarget w) (cameraOffset w) (<[key := v]> (data w)) (disposed w).

Definition getData (w : world) (key : string) : value :=
  default Undefined (data w !! key).

(** The frames the renderer's animation loop runs, one per clock delta;
    [None] when one of them throws. *)
Fixpoint frames (st : state) (deltas : list Qc) : option state :=
  match deltas with
  | [] => Some st
  | deltaTime :: rest => r ← animate st deltaTime; frames r.1 rest
  end.

(** Game code that stands still: no callback, or one that leaves the world
    as it is, like the [(deltaTime) => {}] the engine starts with. *)
Definition idle (st : state) : Prop :=
  ∀ deltaTime w,
    (call_update (State w (keysPressed st) (onUpdateCallback st)) deltaTime).1 = w.

(** The scene graph and mesh list of a world the API has built: no object is
    a child of the scene twice, and every node is an object. *)
Definition well_formed (w : world) : Prop :=
  NoDup (scene w) ∧
  ∀ r, r ∈ scene w ∨ r ∈ meshes w → is_Some (heap w !! r).

End Engine3D.

(** ** The chat application around the engines ([App], in [engine.ts] after
    [getEngineScript]) *)
Module App.

(** Modelled from the spec: [types.ts], which declares [WorkspaceType], is not
    among the sources; the workspace mode is one of two, 2D or 3D, chosen once
    at startup. *)
Inductive WorkspaceType := W2D | W3D.

Inductive Role := user | model.

(** [ChatMessage]; [rated] is optional, [None] when the property is absent. *)
Record ChatMessage := Message {
  id : string;
  role : Role;
  text : string;
  rated : option bool;
}.

#[global] Instance Role_eq_dec : EqDecision Role.
Proof. solve_decision. Defined.

#[global] Instance ChatMessage_eq_dec : EqDecision ChatMessage.
Proof. solve_decision. Defined.

(** A chat session of the AI service, as a handle. *)
Definition Chat := nat.

(** The state of the [App] component, one field per [useState]. *)
Record state := State {
  workspace : option WorkspaceType;
  aiChat : option Chat;
  isLoading : bool;
  generatedCode : string;
  chatHistory : list ChatMessage;
}.

(** The state of the first render. *)
Definition init : state := State None None false "" [].

(** What a [catch] clause receives. *)
Inductive thrown :=
| Error (message : string)      (* [error instanceof Error] *)
| not_an_Error.

(** What [createAIGameChatSession] returns. *)
Record session := Session {
  chat : Chat;
  initialCode : string;
  welcomeMessage : string;
}.

(** The workspace type as the string it is: ['2D'] or ['3D']. *)
Definition workspace_name (workspaceType : WorkspaceType) : string :=
  match workspaceType with
  | W2D => "2D"
  | W3D => "3D"
  end.

(** [createAIGameChatSession(workspaceType)].  [API_KEY] is
    [process.env.API_KEY], [initialCodeTemplates] the table of that name and
    [created] what the AI service's client gives for the new chat: a handle,
    or what it throws. *)
Definition createAIGameChatSession (API_KEY : option string)
    (initialCodeTemplates : WorkspaceType → string) (created : thrown + Chat)
    (workspaceType : WorkspaceType) : thrown + session :=
  if bool_decide (default "" API_KEY = "")
  then inl (Error "API Key is not configured. Cannot contact AI service.")
  else
    match created with
    | inl error => inl error
    | inr chat =>
        inr (Session chat (initialCodeTemplates workspaceType)
               ("Welcome! I've set up a " +:+ workspace_name workspaceType
                +:+ " project for you. What would you like to create?"))
    end.

(** [handleSelectWorkspace(selectedWorkspace)]; [created] is the outcome of
    [createAIGameChatSession] and [now] the value of [Date.now()]. *)
Definition handleSelectWorkspace (now : N) (created : thrown + session)
    (selectedWorkspace : WorkspaceType) (st : state) : state :=
  match created with
  | inr s =>
      State (Some selectedWorkspace) (Some (chat s)) (isLoading st) (initialCode s)
            [ Message ("model-init-" +:+ pretty now) model (welcomeMessage s) None ]
  | inl error =>
      let errorMessage :=
        match error with
        | Error message => message
        | not_an_Error => "An unknown error occurred."
        end in
      State (workspace st) (aiChat st) (isLoading st) (generatedCode st)
            [ Message ("model-error-" +:+ pretty now) model
                      ("Error initializing AI: " +:+ errorMessage) None ]
  end.

(** [handleGenerateCode(prompt)] up to its [await]: the guard, then the
    loading flag and the user's message. *)
Definition send (now : N) (prompt : string) (st : state) : state :=
  if bool_decide (aiChat st = None) || bool_decide (prompt = "") || isLoading st
     || bool_decide (workspace st = None)
  then st
  else State (workspace st) (aiChat st) true (generatedCode st)
             (chatHistory st ++ [ Message ("user-" +:+ pretty now) user prompt None ]).

(** What [JSON.parse(response.text)] gives, as far as the handler looks:
    the fields [explanation] and [code], which the response schema types as
    strings, are [None] where the value has no such property. *)
Inductive parsed :=
| not_JSON                                         (* [JSON.parse] throws *)
| JSON_null                                        (* reading a property of [null] throws *)
| JSON_value (explanation code : option string).

(** How [sendMessage] settles. *)
Inductive reply :=
| rejected (error : thrown)
| answered (text : string) (json : parsed).

(** The inner [try]/[catch]: the explanation and the code read off a reply. *)
Definition read (text : string) (json : parsed) : string * string :=
  match json with
  | JSON_value explanation code => (default "" explanation, default "" code)
  | not_JSON | JSON_null => (text, "")
  end.

(** [handleGenerateCode] after its [await]: the state updates are applied to
    the state of that moment. *)
Definition receive (now : N) (r : reply) (st : state) : state :=
  match r with
  | answered text json =>
      let '(explanation, code) := read text json in
      State (workspace st) (aiChat st) false
            (if bool_decide (code = "") then generatedCode st else code)
            (chatHistory st ++
               [ Message ("model-" +:+ pretty now) model
                         (if bool_decide (explanation = "")
                          then "Code updated successfully." else explanation)
                         None ])
  | rejected error =>
      let errorMessage :=
        match error with
        | Error message => "Error: " +:+ message
        | not_an_Error =>
            "An unknown error occurred. The AI may have returned an invalid response."
        end in
      State (workspace st) (aiChat st) false (generatedCode st)
            (chatHistory st ++
               [ Message ("model-error-" +:+ pretty now) model errorMessage None ])
  end.

(** The two messages [handlePositiveFeedback] inserts; each reads the clock. *)
Definition feedbackMessages (now1 now2 : N) : list ChatMessage :=
  [ Message ("user-feedback-" +:+ pretty now1) user
            "That was a great update!" (Some true);
    Message ("model-feedback-" +:+ pretty now2) model
            "Great! I'll keep that in mind for future updates." (Some true) ].

(** [{ ...message, rated: true }] *)
Definition mark_rated (m : ChatMessage) : ChatMessage :=
  Message (id m) (role m) (text m) (Some true).

(** The updater [handlePositiveFeedback(messageId)] hands to
    [setChatHistory]. *)
Definition rate (now1 now2 : N) (messageId : string) (prev : list ChatMessage)
    : list ChatMessage :=
  match list_find (λ msg, id msg = messageId) prev with
  | None => prev                                   (* messageIndex === -1 *)
  | Some (messageIndex, msg) =>
      if default false (rated msg) then prev
      else
        let newHistory := <[messageIndex := mark_rated msg]> prev in
        take (S messageIndex) newHistory ++ feedbackMessages now1 now2
          ++ drop (S messageIndex) newHistory
  end.

Definition handlePositiveFeedback (now1 now2 : N) (messageId : string)
    (st : state) : state :=
  State (workspace st) (aiChat st) (isLoading st) (generatedCode st)
        (rate now1 now2 messageId (chatHistory st)).

Definition handleReset (st : state) : state := State None None false "" [].

(** What can happen to the component. *)
Inductive event :=
| select (now : N) (created : thrown + session) (selected : WorkspaceType)
| sent (now : N) (prompt : string)
| received (now : N) (r : reply)
| feedback (now1 now2 : N) (messageId : string)
| reset.

Definition step (st : state) (e : event) : state :=
  match e with
  | select now created selected => handleSelectWorkspace now created selected st
  | sent now prompt => send now prompt st
  | received now r => receive now r st
  | feedback now1 now2 messageId => handlePositiveFeedback now1 now2 messageId st
  | reset => handleReset st
  end.

(** A state in which a shown workspace has its chat session and a history. *)
Definition settled (st : state) : Prop :=
  (is_Some (workspace st) → is_Some (aiChat st))
  ∧ (is_Some (workspace st) → chatHistory st ≠ []).

End App.

(** ** Scenarios used to exercise the theorems *)
Module Scenario.

(** [Engine.create.sprite({ x: 0, y: 0, asset: 'player' })] *)
Definition player_spec : Engine2D.sprite_spec :=
  Engine2D.SpriteSpec 0 0 None None "player" None.

(** [{ x: 20, y: 0, asset: 'enemy' }]: its left edge is the player's right edge. *)
Definition neighbour_spec : Engine2D.sprite_spec :=
  Engine2D.SpriteSpec (num 20) 0 None None "enemy" None.

Definition player : Engine2D.sprite := Engine2D.new_sprite player_spec.
Definition neighbour : Engine2D.sprite := Engine2D.new_sprite neighbour_spec.

(** [{ x: 0, y: 0, asset: 'player', properties: { color: 'red' } }] *)
Definition red_player_spec : Engine2D.sprite_spec :=
  Engine2D.SpriteSpec 0 0 None None "player"
    (Some (Engine2D.Properties None None None None None (Some (Str "red")) None [])).

(** [{ x: 1, y: 2, width: 3, height: 4, asset: 'player', properties:
     { x: 5, y: 6, width: 7, height: 8, asset: 'coin', color: 'red' } }] *)
Definition overriding : Engine2D.properties :=
  Engine2D.Properties (Some (num 5)) (Some (num 6)) (Some (num 7)) (Some (num 8))
                      (Some "coin") (Some (Str "red")) None [].

Definition overridden_spec : Engine2D.sprite_spec :=
  Engine2D.SpriteSpec (num 1) (num 2) (Some (num 3)) (Some (num 4)) "player"
                      (Some overriding).

(** [mesh = Engine.create.mesh({ geometry: 'sphere' })] on the fresh
    3D engine, then [Engine.camera.follow(mesh)]. *)
Definition sphere_spec : Engine3D.mesh_spec :=
  Engine3D.MeshSpec "sphere" None None None.

Definition with_sphere : Engine3D.world * ref :=
  Engine3D.create_mesh (Engine3D.the_world Engine3D.init) sphere_spec.

Definition sphere_scene : Engine3D.state :=
  Engine3D.State with_sphere.1 ∅ (Engine3D.onUpdateCallback Engine3D.init).

(** [mesh = Engine.create.mesh({ geometry: 'box', position: [1, 2, 3] })] on
    the fresh 3D engine, to be followed with the offset [[0, 2, 7]]: the
    camera, at [(0, 0, 10)], is then to move toward [(1, 4, 10)]. *)
Definition box_spec : Engine3D.mesh_spec :=
  Engine3D.MeshSpec "box" (Some (THREE.Vec3 (num 1) (num 2) (num 3))) None None.

Definition with_box : Engine3D.world * ref :=
  Engine3D.create_mesh (Engine3D.the_world Engine3D.init) box_spec.

Definition box_scene : Engine3D.state :=
  Engine3D.State with_box.1 ∅ (Engine3D.onUpdateCallback Engine3D.init).

Definition behind : THREE.Vector3 := THREE.Vec3 0 (num 2) (num 7).

(** Space and W are held down. *)
Definition held : gset string := {[ "Space" ]} ∪ {[ "KeyW" ]}.

(** [{ x: 10, y: 10, asset: 'enemy' }]: it overlaps the player. *)
Definition overlapping_spec : Engine2D.sprite_spec :=
  Engine2D.SpriteSpec (num 10) (num 10) None None "enemy" None.

(** A 2D project with the welcome message and one answer of the model. *)
Definition welcome : App.ChatMessage :=
  App.Message "model-init-1" App.model "Welcome!" None.

Definition answer : App.ChatMessage :=
  App.Message "model-2" App.model "Added a player." None.

Definition chatting : App.state :=
  App.State (Some App.W2D) (Some 0%nat) false "<canvas></canvas>" [welcome; answer].

(** No sprite yet. *)
Definition empty_world : Engine2D.world := Engine2D.World [] ∅ ∅.

(** The player and an enemy that overlaps it. *)
Definition duel : Engine2D.world :=
  (Engine2D.create_sprite (Engine2D.create_sprite empty_world player_spec).1
                          overlapping_spec).1.

(** Game code that lets one sprite fall:
    [Engine.onUpdate((dt) => Engine.physics.applyGravity(sprite, force))]. *)
Definition falling (sprite : ref) (force : option Qc) : Engine2D.callback :=
  λ _ _ w, Engine2D.applyGravity_at w sprite force.

End Scenario.

(** * Properties of Engine2D *)
Module Facts2D.
Import Engine2D.

Lemma Qclt_irrefl (q : Qc) : ¬ q < q.
Proof. apply (irreflexivity Qclt). Qed.

Lemma typeof_number (v : value) : typeof v = "number" ↔ ∃ n, v = Num n.
Proof.
  split.
  - destruct v; simpl; intros H; try discriminate H. by eexists.
  - by intros [n ->].
Qed.

(** C1: [getCollisions w s] holds exactly the live sprites other than [s]
    that [checkCollision] reports as overlapping [s]; [s] itself is never
    in it, and the result keeps the order of the live collection. *)
Theorem getCollisions_exact (w : world) (s : ref) :
  (∀ other, other ∈ getCollisions w s ↔
            other ∈ sprites w ∧ other ≠ s ∧
            checkCollision (heap w !! s) (heap w !! other) = true)
  ∧ (s ∉ getCollisions w s)
  ∧ (getCollisions w s) `sublist_of` (sprites w).
Proof.
  unfold getCollisions. split; [|split].
  - intros other. rewrite list_elem_of_filter. split.
    + intros [[Hne Hhit] Hin]. by repeat split.
    + intros (Hin & Hne & Hhit). by repeat split.
  - rewrite list_elem_of_filter. intros [[Hne _] _]. by apply Hne.
  - apply sublist_filter.
Qed.

(** C7: [checkCollision] is symmetric in its two arguments. *)
Theorem checkCollision_symmetric (a b : option sprite) :
  checkCollision a b = checkCollision b a.
Proof.
  destruct a as [a|], b as [b|]; simpl; try reflexivity.
  destruct (bool_decide (x a < x b + width b)),
           (bool_decide (x b < x a + width a)),
           (bool_decide (y a < y b + height b)),
           (bool_decide (y b < y a + height a)); reflexivity.
Qed.

(** C10: every comparison of [checkCollision] is strict, so two boxes that
    only touch, one's edge lying on the other's, do not collide. *)
Theorem checkCollision_touching (a b : sprite) :
  x a + width a = x b ∨ x b + width b = x a ∨
  y a + height a = y b ∨ y b + height b = y a →
  checkCollision (Some a) (Some b) = false.
Proof.
  intros Htouch. simpl.
  repeat rewrite andb_false_iff. repeat rewrite bool_decide_eq_false.
  destruct Htouch as [H|[H|[H|H]]]; rewrite H.
  - left; left; right. apply Qclt_irrefl.
  - left; left; left. apply Qclt_irrefl.
  - right. apply Qclt_irrefl.
  - left; right. apply Qclt_irrefl.
Qed.

Lemma checkCollision_touching_witness :
  x Scenario.player + width Scenario.player = x Scenario.neighbour ∧
  checkCollision (Some Scenario.player) (Some Scenario.neighbour) = false.
Proof.
  assert (x Scenario.player + width Scenario.player = x Scenario.neighbour) as H
    by (apply Qc_is_canon; reflexivity).
  split; [exact H|]. apply checkCollision_touching. left. exact H.
Defined.

(** C3: [applyGravity] adds [g * (1/60)] to the vertical velocity, read as
    0 when [velocityY] is not a number, then adds the new velocity times
    [1/60] to [y]; [g] is 980 when left out.  The step is 1/60 whatever the
    frame's timestamp is. *)
Theorem applyGravity_fixed_step (s : sprite) (gravityForce : option Qc) :
  let g := default (num 980) gravityForce in
  let before :=
    if decide (typeof (velocityY s) = "number") then velocityY s else Num 0 in
  (∃ v, before = Num v ∧
        velocityY (applyGravity s gravityForce) = Num (v + g * (num 1 / num 60)) ∧
        y (applyGravity s gravityForce)
        = y s + (v + g * (num 1 / num 60)) * (num 1 / num 60))
  ∧ (x (applyGravity s gravityForce) = x s ∧
     width (applyGravity s gravityForce) = width s ∧
     height (applyGravity s gravityForce) = height s ∧
     color (applyGravity s gravityForce) = color s)
  ∧ (∀ w r, heap (applyGravity_at w r gravityForce) !! r
            = (λ s, applyGravity s gravityForce) <$> heap w !! r)
  ∧ (∀ st r timestamp,
       the_world (gameLoop (onUpdate st (Some (Scenario.falling r gravityForce)))
                           timestamp).1
       = applyGravity_at (the_world st) r gravityForce).
Proof.
  intros g before. repeat split.
  - subst before. destruct (velocityY s) eqn:Hv; simpl;
      try (exists 0; unfold applyGravity; rewrite Hv; by repeat split).
    exists n. unfold applyGravity. rewrite Hv. by repeat split.
  - intros w r. unfold applyGravity_at. simpl. by rewrite lookup_alter_eq.
Qed.

Lemma create_sprite_lookup (w : world) (spec : sprite_spec) :
  heap (create_sprite w spec).1 !! (create_sprite w spec).2 = Some (new_sprite spec).
Proof. simpl. apply lookup_insert_eq. Qed.

Lemma create_sprite_fresh (w : world) (spec : sprite_spec) :
  heap w !! (create_sprite w spec).2 = None.
Proof. simpl. apply not_elem_of_dom, is_fresh. Qed.

Lemma draw_create_sprite (w : world) (spec : sprite_spec) :
  ∃ before, draw (create_sprite w spec).1 = before ++ draw_sprite (new_sprite spec).
Proof.
  eexists. unfold draw. cbn [create_sprite fst sprites heap].
  rewrite bind_app. f_equal. cbn [mbind list_bind].
  rewrite lookup_insert_eq. reflexivity.
Qed.

(** C9: the property bag is spread after the engine's own fields, so each
    of [x], [y], [width], [height], [asset] and [color] of the created
    sprite is the bag's value where the bag has that key. *)
Theorem properties_override (w : world) (spec : sprite_spec) (bag : properties) :
  s_properties spec = Some bag →
  ∃ s, heap (create_sprite w spec).1 !! (create_sprite w spec).2 = Some s ∧
       (∀ v, p_x bag = Some v → x s = v) ∧
       (∀ v, p_y bag = Some v → y s = v) ∧
       (∀ v, p_width bag = Some v → width s = v) ∧
       (∀ v, p_height bag = Some v → height s = v) ∧
       (∀ v, p_asset bag = Some v → asset s = v) ∧
       (∀ v, p_color bag = Some v → color s = v).
Proof.
  intros Hbag. exists (new_sprite spec). split; [apply create_sprite_lookup|].
  unfold new_sprite. rewrite Hbag. simpl.
  repeat split; intros v Hv; by rewrite Hv.
Qed.

Lemma properties_override_witness :
  ∃ s, heap (create_sprite Scenario.empty_world Scenario.overridden_spec).1
         !! (create_sprite Scenario.empty_world Scenario.overridden_spec).2 = Some s ∧
       x s = num 5 ∧ y s = num 6 ∧ width s = num 7 ∧ height s = num 8 ∧
       asset s = "coin" ∧ color s = Str "red" ∧
       s_x Scenario.overridden_spec = num 1 ∧
       get colorMap (s_asset Scenario.overridden_spec) = Str "skyblue".
Proof.
  destruct (properties_override Scenario.empty_world Scenario.overridden_spec
              Scenario.overriding eq_refl)
    as (s & Hs & Hx & Hy & Hw & Hh & Ha & Hc).
  exists s. split; [exact Hs|].
  rewrite (Hx _ eq_refl), (Hy _ eq_refl), (Hw _ eq_refl), (Hh _ eq_refl),
    (Ha _ eq_refl), (Hc _ eq_refl).
  repeat split.
Defined.

Lemma colorMap_palette (k : string) :
  own_property k Object_prototype = None →
  logical_or (get colorMap k) (get colorMap "default") = Str (spec_palette k).
Proof.
  intros Hproto. unfold get, spec_palette. rewrite Hproto. simpl.
  repeat (case_decide; [subst k; reflexivity|]).
  destruct (String.eqb_spec k "player"); [done|].
  destruct (String.eqb_spec k "enemy"); [done|].
  destruct (String.eqb_spec k "platform"); [done|].
  destruct (String.eqb_spec k "coin"); [done|].
  by destruct (String.eqb_spec k "default").
Qed.

(** A kind that names a member inherited from [Object.prototype] finds that
    member in [colorMap], and the sprite's colour is then no string at all. *)
Lemma inherited_kind_color :
  color (new_sprite (SpriteSpec 0 0 None None "constructor" None)) = Function "Object".
Proof. reflexivity. Qed.

(** C4, as stated, fails: a [color] key in the property bag replaces the
    palette colour. *)
Lemma palette_overridden_by_bag : ¬ palette_for_every_sprite.
Proof.
  intros Hall.
  destruct (Hall Scenario.empty_world Scenario.red_player_spec)
    as (before & px & py & pw & ph & Hdraw).
  vm_compute in Hdraw.
  destruct before as [|e1 [|e2 before]]; simpl in Hdraw.
  - discriminate Hdraw.
  - injection Hdraw as _ H. discriminate H.
  - injection Hdraw as _ _ H. by destruct before.
Qed.

(** C4, amended: when the property bag has no [color] key and the kind is
    not the name of a member inherited from [Object.prototype], the frame
    drawn after [create.sprite] fills the new sprite in the palette colour
    of its kind, white for a kind outside the palette. *)
Theorem palette_color_drawn (w : world) (spec : sprite_spec) :
  p_color (default no_properties (s_properties spec)) = None →
  own_property (s_asset spec) Object_prototype = None →
  ∃ before,
    draw (create_sprite w spec).1
    = before ++ [ fillStyle (Str (spec_palette (s_asset spec)));
                  fillRect (x (new_sprite spec)) (y (new_sprite spec))
                           (width (new_sprite spec)) (height (new_sprite spec)) ].
Proof.
  intros Hbag Hproto.
  destruct (draw_create_sprite w spec) as [before ->]. exists before.
  unfold draw_sprite. do 3 f_equal.
  unfold new_sprite at 1. cbn [color]. rewrite Hbag. simpl.
  by apply colorMap_palette.
Qed.

Lemma palette_color_drawn_witness :
  ∃ before,
    draw (create_sprite Scenario.empty_world Scenario.neighbour_spec).1
    = before ++ [ fillStyle (Str "tomato"); fillRect (num 20) 0 (num 20) (num 20) ].
Proof.
  exact (palette_color_drawn Scenario.empty_world Scenario.neighbour_spec
           eq_refl eq_refl).
Defined.

(** C2, first frame: [lastTime] starts at 0, so the callback of the first
    frame gets the timestamp itself in seconds: 0.016 for a first frame at
    16 ms, not 0. *)
Theorem first_frame_delta (innerWidth innerHeight : Qc) :
  (gameLoop (init innerWidth innerHeight) (num 16)).2
  = [ clearRect 0 0 innerWidth innerHeight; update (num 16 / num 1000);
      requestAnimationFrame ]
  ∧ num 16 / num 1000 ≠ 0.
Proof.
  split; [|done].
  unfold gameLoop. simpl. do 2 f_equal.
Qed.

(** ** Beyond the first frame *)

Lemma deltas_draw (w : world) : deltas (draw w) = [].
Proof.
  unfold deltas, draw. induction (sprites w) as [|r l IH]; [reflexivity|].
  cbn [mbind list_bind] in *. rewrite bind_app, IH, app_nil_r.
  by destruct (heap w !! r).
Qed.

Lemma gameLoop_deltas (st : state) (cb : callback) (timestamp : Qc) :
  onUpdateCallback st = Some cb →
  deltas (gameLoop st timestamp).2
  = [or_zero ((timestamp - lastTime st) / num 1000)].
Proof.
  intros Hcb. unfold gameLoop. rewrite Hcb. cbn [snd].
  unfold deltas. cbn [mbind list_bind]. rewrite !bind_app.
  fold (deltas (draw (cb (or_zero ((timestamp - lastTime st) / num 1000))
                         (keysPressed st) (the_world st)))).
  by rewrite deltas_draw.
Qed.

Lemma gameLoop_state (st : state) (timestamp : Qc) :
  lastTime (gameLoop st timestamp).1 = timestamp ∧
  onUpdateCallback (gameLoop st timestamp).1 = onUpdateCallback st.
Proof. unfold gameLoop. by destruct (onUpdateCallback st). Qed.

(** X1: while a callback is registered every frame calls it exactly once,
    with the time since the frame before in seconds, the first frame counting
    from [lastTime]. *)
Theorem callback_once_per_frame (st : state) (cb : callback) (timestamps : list Qc) :
  onUpdateCallback st = Some cb →
  deltas <$> frames st timestamps
  = (λ p, [or_zero ((p.2 - p.1) / num 1000)])
      <$> zip (lastTime st :: timestamps) timestamps.
Proof.
  revert st. induction timestamps as [|t rest IH]; intros st Hcb; [reflexivity|].
  cbn [frames fmap list_fmap zip zip_with].
  rewrite (gameLoop_deltas st cb t Hcb). f_equal.
  destruct (gameLoop_state st t) as [Hlast Hsame].
  rewrite IH by (by rewrite Hsame). by rewrite Hlast.
Qed.

Lemma callback_once_per_frame_witness :
  deltas <$> frames (init (num 800) (num 600)) [num 16; num 32; num 48]
  = [ [num 16 / num 1000]; [num 16 / num 1000]; [num 16 / num 1000] ].
Proof.
  rewrite (callback_once_per_frame (init (num 800) (num 600)) (λ _ _ w, w)
             [num 16; num 32; num 48] eq_refl).
  cbn [zip zip_with fmap list_fmap fst snd]. unfold or_zero.
  repeat f_equal; apply Qc_is_canon; reflexivity.
Defined.

(** X2: the overlap example: a 20 by 20 box at (0,0) collides with one at
    (10,10) and not with one at (30,30). *)
Theorem checkCollision_example :
  checkCollision (Some (Sprite 0 0 (num 20) (num 20) "player" (Str "skyblue") Undefined []))
                 (Some (Sprite (num 10) (num 10) (num 20) (num 20) "enemy" (Str "tomato")
                               Undefined []))
  = true ∧
  checkCollision (Some (Sprite 0 0 (num 20) (num 20) "player" (Str "skyblue") Undefined []))
                 (Some (Sprite (num 30) (num 30) (num 20) (num 20) "enemy" (Str "tomato")
                               Undefined []))
  = false.
Proof. split; by vm_compute. Qed.

Lemma well_formed_create (w : world) (spec : sprite_spec) :
  well_formed w → well_formed (create_sprite w spec).1.
Proof.
  intros [Hnodup Hlive]. split; cbn [create_sprite fst sprites heap].
  - apply list.NoDup_app. split; [exact Hnodup|]. split; [|apply NoDup_singleton].
    intros r Hr ->%list_elem_of_singleton. apply Hlive in Hr as [s Hs].
    pose proof (create_sprite_fresh w spec) as Hfresh. simpl in Hfresh. congruence.
  - intros r [Hr | ->%list_elem_of_singleton]%elem_of_app.
    + destruct (decide (fresh (dom (heap w)) = r)) as [<-|Hne].
      * rewrite lookup_insert_eq. by eexists.
      * rewrite lookup_insert_ne by exact Hne. by apply Hlive.
    + rewrite lookup_insert_eq. by eexists.
Qed.

Lemma well_formed_destroy (w : world) (e : ref) :
  well_formed w → well_formed (destroy w e).
Proof.
  intros [Hnodup Hlive]. split; cbn [destroy sprites heap].
  - by apply list.NoDup_filter.
  - intros r [_ Hr]%list_elem_of_filter. by apply Hlive.
Qed.

(** X3: the live collection never holds a sprite twice and holds only sprite
    objects: [create.sprite], [destroy] and [applyGravity] keep it so, and a
    created sprite is live until destroyed, after which it is gone. *)
Theorem live_collection_invariant (w : world) :
  well_formed w →
  (∀ spec, well_formed (create_sprite w spec).1 ∧
           (create_sprite w spec).2 ∈ sprites (create_sprite w spec).1 ∧
           ((create_sprite w spec).2 ∉ sprites w)) ∧
  (∀ e, well_formed (destroy w e) ∧ (e ∉ sprites (destroy w e)) ∧
        ∀ r, r ≠ e → (r ∈ sprites (destroy w e) ↔ r ∈ sprites w)) ∧
  (∀ r g, well_formed (applyGravity_at w r g)).
Proof.
  intros Hwf. split; [|split].
  - intros spec. split; [by apply well_formed_create|]. split.
    + cbn [create_sprite fst snd sprites]. apply elem_of_app. right.
      by apply list_elem_of_singleton.
    + intros Hin. destruct Hwf as [_ Hlive]. apply Hlive in Hin as [s Hs].
      pose proof (create_sprite_fresh w spec). congruence.
  - intros e. split; [by apply well_formed_destroy|]. split.
    + cbn [destroy sprites]. rewrite list_elem_of_filter. by intros [Hne _].
    + intros r Hne. cbn [destroy sprites]. rewrite list_elem_of_filter. tauto.
  - intros r g. destruct Hwf as [Hnodup Hlive]. split; [exact Hnodup|].
    intros r' Hr'. cbn [applyGravity_at heap]. apply Hlive in Hr' as [s Hs].
    destruct (decide (r = r')) as [->|Hne].
    + rewrite lookup_alter_eq, Hs. by eexists.
    + rewrite lookup_alter_ne by exact Hne. by eexists.
Qed.

Lemma empty_world_well_formed : well_formed Scenario.empty_world.
Proof. split; [apply NoDup_nil_2|]. intros r Hr. by apply elem_of_nil in Hr. Qed.

Lemma live_collection_invariant_witness :
  well_formed (create_sprite Scenario.empty_world Scenario.player_spec).1 ∧
  well_formed (destroy Scenario.empty_world 0%nat).
Proof.
  destruct (live_collection_invariant Scenario.empty_world empty_world_well_formed)
    as (Hcreate & Hdestroy & _).
  split; [apply (Hcreate Scenario.player_spec) | apply (Hdestroy 0%nat)].
Defined.

(** ** The scratch store and the callback slot *)



(** X6: the callback slot holds one callback.  A frame runs the callback
    registered last, and only that one, on the world; after a falsy value is
    registered a frame calls nothing and leaves the world alone.  Registering
    changes neither the world nor the clock. *)
Theorem onUpdate_single_slot (st : state) (first : option callback) (timestamp : Qc) :
  (∀ second,
     the_world (gameLoop (onUpdate (onUpdate st first) (Some second)) timestamp).1
     = second (or_zero ((timestamp - lastTime st) / num 1000))
              (keysPressed st) (the_world st)
     ∧ deltas (gameLoop (onUpdate (onUpdate st first) (Some second)) timestamp).2
       = [or_zero ((timestamp - lastTime st) / num 1000)])
  ∧ the_world (gameLoop (onUpdate (onUpdate st first) None) timestamp).1 = the_world st
  ∧ deltas (gameLoop (onUpdate (onUpdate st first) None) timestamp).2 = []
  ∧ the_world (onUpdate st first) = the_world st
  ∧ lastTime (onUpdate st first) = lastTime st.
Proof.
  split; [|split; [|split; [|split]]]; try reflexivity.
  - intros second. split; [reflexivity|].
    exact (gameLoop_deltas (onUpdate (onUpdate st first) (Some second)) second
             timestamp eq_refl).
  - unfold gameLoop, onUpdate. cbn [onUpdateCallback the_world snd app].
    unfold deltas. cbn [mbind list_bind]. rewrite bind_app.
    fold (deltas (draw (the_world st))). by rewrite deltas_draw.
Qed.

(** ** The layout of a frame *)



(** ** Collisions among live sprites *)

Lemma checkCollision_comm (a b : option sprite) :
  checkCollision a b = checkCollision b a.
Proof.
  destruct a as [a|], b as [b|]; simpl; try reflexivity.
  by rewrite (andb_comm (bool_decide (x a < _))), <- !andb_assoc,
       (andb_comm (bool_decide (y a < _))), !andb_assoc,
       (andb_comm (bool_decide (x b < _) && bool_decide (x a < _))),
       !andb_assoc.
Qed.

Lemma filter_filter_ne (e : ref) (P : ref → Prop) `{∀ r, Decision (P r)} (l : list ref) :
  filter P (filter (λ s, s ≠ e) l) = filter (λ s, s ≠ e) (filter P l).
Proof.
  induction l as [|a l IH]; [reflexivity|].
  rewrite !(filter_cons _ a l).
  destruct (decide (a ≠ e)) as [Hne|Heq], (decide (P a)) as [HP|HP];
    rewrite ?filter_cons, ?decide_True, ?decide_False by done; by rewrite ?IH.
Qed.

(** X9: among live sprites colliding is mutual: [b] is in
    [getCollisions(a)] exactly when [a] is in [getCollisions(b)].  After
    [destroy(e)] the collisions of any sprite are the ones it had, without
    [e]. *)
Theorem getCollisions_mutual (w : world) (a b : ref) :
  a ∈ sprites w → b ∈ sprites w →
  (b ∈ getCollisions w a ↔ a ∈ getCollisions w b)
  ∧ (∀ e s, getCollisions (destroy w e) s = filter (λ o, o ≠ e) (getCollisions w s)).
Proof.
  intros Ha Hb. split.
  - unfold getCollisions. rewrite !list_elem_of_filter.
    rewrite (checkCollision_comm (heap w !! a)). split.
    + intros [[Hne Hhit] _]. split; [split; [congruence|exact Hhit]|exact Ha].
    + intros [[Hne Hhit] _]. split; [split; [congruence|exact Hhit]|exact Hb].
  - intros e s. unfold getCollisions, destroy. cbn [sprites heap].
    apply filter_filter_ne.
Qed.

Lemma getCollisions_mutual_witness :
  (1%nat ∈ getCollisions Scenario.duel 0%nat ↔ 0%nat ∈ getCollisions Scenario.duel 1%nat)
  ∧ getCollisions Scenario.duel 0%nat = [1%nat]
  ∧ getCollisions (destroy Scenario.duel 1%nat) 0%nat = [].
Proof.
  assert (0%nat ∈ sprites Scenario.duel) as H0 by (vm_compute; apply list_elem_of_here).
  assert (1%nat ∈ sprites Scenario.duel) as H1
    by (vm_compute; apply list_elem_of_further, list_elem_of_here).
  destruct (getCollisions_mutual Scenario.duel 0%nat 1%nat H0 H1) as [Hmutual Hgone].
  split; [exact Hmutual|]. split; [by vm_compute|].
  rewrite Hgone. by vm_compute.
Defined.

(** ** Drawing *)

Lemma draw_insert_fresh (l : list ref) (h : gmap ref sprite) (d d' : gmap string value)
    (r : ref) (s : sprite) :
  (∀ r', r' ∈ l → is_Some (h !! r')) → h !! r = None →
  draw (World l (<[r := s]> h) d) = draw (World l h d').
Proof.
  intros Hlive Hfresh. unfold draw. cbn [sprites heap].
  induction l as [|a l IH]; [reflexivity|].
  cbn [mbind list_bind]. rewrite IH.
  - f_equal. rewrite lookup_insert_ne; [reflexivity|].
    intros ->. destruct (Hlive a) as [o Ho]; [apply list_elem_of_here|congruence].
  - intros r' Hr'. apply Hlive. by apply list_elem_of_further.
Qed.

(** X10: on a world the API has built, a created sprite is drawn last, after
    the sprites that were there, which are drawn as before; destroying the
    returned handle restores the live collection and the drawing of the frame
    to what they were before the creation. *)
Theorem create_then_destroy_sprite (w : world) (spec : sprite_spec) :
  well_formed w →
  draw (create_sprite w spec).1 = draw w ++ draw_sprite (new_sprite spec)
  ∧ sprites (destroy (create_sprite w spec).1 (create_sprite w spec).2) = sprites w
  ∧ draw (destroy (create_sprite w spec).1 (create_sprite w spec).2) = draw w
  ∧ length (draw w) = (2 * length (sprites w))%nat.
Proof.
  intros [Hnodup Hlive].
  assert (heap w !! fresh (dom (heap w)) = None) as Hfresh
    by apply not_elem_of_dom, is_fresh.
  assert (fresh (dom (heap w)) ∉ sprites w) as Hnew.
  { intros Hin. destruct (Hlive _ Hin) as [o Ho]. congruence. }
  assert (filter (λ s, s ≠ fresh (dom (heap w))) (sprites w ++ [fresh (dom (heap w))])
          = sprites w) as Hfilter.
  { rewrite list.filter_app, (filter_cons _ _ []).
    rewrite decide_False by (intros H; by apply H).
    rewrite filter_nil, app_nil_r.
    clear Hnodup Hlive. induction (sprites w) as [|a l IH]; [reflexivity|].
    rewrite filter_cons, decide_True.
    - f_equal. apply IH. intros Hin. apply Hnew. by apply list_elem_of_further.
    - intros ->. apply Hnew, list_elem_of_here. }
  split; [|split; [|split]].
  - unfold draw at 1. cbn [create_sprite fst sprites heap]. rewrite bind_app.
    f_equal.
    + destruct w as [l h d]. exact (draw_insert_fresh l h d d _ _ Hlive Hfresh).
    + cbn [mbind list_bind]. by rewrite lookup_insert_eq.
  - cbn [create_sprite destroy fst snd sprites]. exact Hfilter.
  - unfold destroy. cbn [create_sprite fst snd sprites heap data]. rewrite Hfilter.
    destruct w as [l h d]. exact (draw_insert_fresh l h d d _ _ Hlive Hfresh).
  - unfold draw. clear Hnodup Hfresh Hnew Hfilter.
    induction (sprites w) as [|a l IH]; [reflexivity|].
    cbn [mbind list_bind]. rewrite length_app, IH.
    + destruct (Hlive a) as [o ->]; [apply list_elem_of_here|]. simpl. lia.
    + intros r' Hr'. apply Hlive. by apply list_elem_of_further.
Qed.

Lemma create_then_destroy_sprite_witness :
  draw (create_sprite Scenario.empty_world Scenario.player_spec).1
  = [ fillStyle (Str "skyblue"); fillRect 0 0 (num 20) (num 20) ]
  ∧ draw (destroy (create_sprite Scenario.empty_world Scenario.player_spec).1
                  (create_sprite Scenario.empty_world Scenario.player_spec).2) = [].
Proof.
  destruct (create_then_destroy_sprite Scenario.empty_world Scenario.player_spec
              empty_world_well_formed) as (Hdraw & _ & Hgone & _).
  split; [exact Hdraw | exact Hgone].
Defined.

End Facts2D.

(** * Properties of Engine3D *)
Module Facts3D.
Import THREE Engine3D.

Lemma lerp_component (a t alpha : Qc) :
  alpha ≠ 1 → a + (t - a) * alpha = t → a = t.
Proof.
  intros Halpha H.
  assert ((t - a) * (1 - alpha) = 0) as Hzero.
  { transitivity (t - (a + (t - a) * alpha)); [ring|]. rewrite H. ring. }
  apply Qcmult_integral in Hzero as [Hzero|Hzero].
  - symmetry. transitivity (t - a + a); [ring|]. rewrite Hzero. ring.
  - destruct Halpha. transitivity (alpha + (1 - alpha)); [|ring].
    rewrite Hzero. ring.
Qed.

Lemma lerp_reaches (a t : Vector3) (alpha : Qc) :
  alpha ≠ 1 → lerp a t alpha = t → a = t.
Proof.
  intros Halpha. destruct a as [ax ay az], t as [tx ty tz].
  unfold lerp. simpl. intros [= Hx Hy Hz].
  f_equal; by eapply lerp_component.
Qed.

Lemma tenth_not_one : num 1 / num 10 ≠ 1.
Proof. done. Qed.

(** C6: once [camera.follow(mesh, offset)] has run, a frame moves the camera
    from where it is to one tenth of the way toward [mesh.position + offset],
    the offset being the one given to [follow], or [[0, 5, 10]] when none was
    given, whatever the frame's delta time is; a camera that was not at that
    target is still not at it after the frame.  The mesh's position is read
    after the frame's update callback, which is supposed to leave the follow
    target and offset as [follow] set them. *)
Theorem follow_moves_partway (st : state) (mesh : ref) (offset : option Vector3)
    (deltaTime : Qc) (o : Object3D) :
  let followed :=
    State (follow (the_world st) (Some mesh) offset) (keysPressed st)
          (onUpdateCallback st) in
  let w := (call_update followed deltaTime).1 in
  let given := default (Vec3 0 (num 5) (num 10)) offset in
  let target :=
    Vec3 (x (position o) + x given) (y (position o) + y given)
         (z (position o) + z given) in
  let camera := camera_position w in
  cameraTarget w = cameraTarget (the_world followed) →
  cameraOffset w = cameraOffset (the_world followed) →
  heap w !! mesh = Some o →
  ∃ st' fx,
    animate followed deltaTime = Some (st', fx) ∧
    camera_position (the_world st')
    = Vec3 (x camera + (x target - x camera) * (num 1 / num 10))
           (y camera + (y target - y camera) * (num 1 / num 10))
           (z camera + (z target - z camera) * (num 1 / num 10)) ∧
    camera_target (the_world st') = Some (position o) ∧
    (camera ≠ target → camera_position (the_world st') ≠ target).
Proof.
  intros followed w given target camera Htarget Hoffset Hmesh.
  unfold animate. fold w.
  destruct (call_update followed deltaTime) as [w0 called] eqn:Hcall.
  simpl in w. subst w. unfold update_camera.
  cbn [followed the_world follow cameraTarget cameraOffset] in Htarget, Hoffset.
  rewrite Htarget. simpl. rewrite Hmesh. simpl. rewrite Hoffset. fold given.
  change (add (position o) given) with target. fold camera.
  eexists _, _. split; [reflexivity|]. simpl.
  split; [reflexivity|]. split; [reflexivity|].
  intros Hfar Hat. apply Hfar.
  by apply (lerp_reaches _ _ _ tenth_not_one).
Qed.

Lemma follow_moves_partway_witness :
  ∃ st' fx,
    animate (State (follow Scenario.with_box.1 (Some Scenario.with_box.2)
                           (Some Scenario.behind))
                   ∅ (onUpdateCallback init))
            (num 1 / num 60) = Some (st', fx) ∧
    camera_position (the_world st') = Vec3 (num 1 / num 10) (num 2 / num 5) (num 10) ∧
    camera_position (the_world st') ≠ Vec3 (num 1) (num 4) (num 10).
Proof.
  destruct (follow_moves_partway Scenario.box_scene Scenario.with_box.2
              (Some Scenario.behind) (num 1 / num 60) (new_mesh Scenario.box_spec)
              eq_refl eq_refl eq_refl)
    as (st' & fx & Hrun & Hpos & _ & Hfar).
  assert (Vec3 (num 1 + 0) (num 2 + num 2) (num 3 + num 7)
          = Vec3 (num 1) (num 4) (num 10)) as Htarget
    by (f_equal; apply Qc_is_canon; reflexivity).
  exists st', fx. split; [exact Hrun|]. split.
  - rewrite Hpos. simpl. f_equal; apply Qc_is_canon; reflexivity.
  - rewrite <- Htarget. apply Hfar.
    change (Vec3 0 0 (num 10) ≠ Vec3 (num 1 + 0) (num 2 + num 2) (num 3 + num 7)).
    rewrite Htarget. intros H. pose proof (f_equal x H) as Hx. by vm_compute in Hx.
Defined.

(** ** Creating and destroying scene nodes *)

Lemma remove_absent (r : ref) (l : list ref) : r ∉ l → remove r l = l.
Proof.
  induction l as [|a l IH]; [reflexivity|]. intros Hout. simpl.
  destruct (decide (a = r)) as [->|Hne].
  - destruct Hout. apply list_elem_of_here.
  - f_equal. apply IH. intros Hin. apply Hout. by apply list_elem_of_further.
Qed.

Lemma remove_pushed (r : ref) (l : list ref) : r ∉ l → remove r (l ++ [r]) = l.
Proof.
  induction l as [|a l IH]; intros Hout; simpl.
  - by rewrite decide_True.
  - destruct (decide (a = r)) as [->|Hne].
    + destruct Hout. apply list_elem_of_here.
    + f_equal. apply IH. intros Hin. apply Hout. by apply list_elem_of_further.
Qed.

Lemma remove_gone (r : ref) (l : list ref) : NoDup l → r ∉ remove r l.
Proof.
  induction 1 as [|a l Hout Hnodup IH]; simpl; [apply not_elem_of_nil|].
  destruct (decide (a = r)) as [->|Hne]; [exact Hout|].
  intros [Heq|Hin]%elem_of_cons; [by destruct Hne | by apply IH].
Qed.

Lemma filter_pushed (r : ref) (l : list ref) :
  r ∉ l → filter (λ m, m ≠ r) (l ++ [r]) = l.
Proof.
  intros Hout. rewrite list.filter_app.
  rewrite (filter_cons _ r []). rewrite decide_False by (intros H; by apply H).
  rewrite filter_nil, app_nil_r.
  induction l as [|a l IH]; [reflexivity|].
  rewrite filter_cons. rewrite decide_True.
  - f_equal. apply IH. intros Hin. apply Hout. by apply list_elem_of_further.
  - intros ->. apply Hout. apply list_elem_of_here.
Qed.

(** X4: on a world the API has built, [create.mesh] followed by [destroy] of
    the handle it returned leaves the scene and the mesh list as they were
    before the creation, having disposed of the mesh's geometry and material;
    and a second [destroy] of any object leaves the scene as the first one
    left it. *)
Theorem create_then_destroy (w : world) (spec : mesh_spec) :
  well_formed w →
  (∃ w', destroy (create_mesh w spec).1 (Some (create_mesh w spec).2) = Some w' ∧
         meshes w' = meshes w ∧
         scene w' = scene w ∧
         ((create_mesh w spec).2 ∉ scene w') ∧
         disposed w' = disposed w ++ [ geometry_of (create_mesh w spec).2;
                                       material_of (create_mesh w spec).2 ])
  ∧ (∀ e, ∃ w1 w2, destroy w (Some e) = Some w1 ∧ destroy w1 (Some e) = Some w2 ∧
                   scene w2 = scene w1 ∧ (e ∉ scene w1)).
Proof.
  intros [Hnodup Hlive].
  assert (heap w !! fresh (dom (heap w)) = None) as Hfresh
    by apply not_elem_of_dom, is_fresh.
  assert (fresh (dom (heap w)) ∉ scene w) as Hscene.
  { intros Hin. destruct (Hlive _ (or_introl Hin)) as [o Ho]. congruence. }
  assert (fresh (dom (heap w)) ∉ meshes w) as Hmeshes.
  { intros Hin. destruct (Hlive _ (or_intror Hin)) as [o Ho]. congruence. }
  split.
  - eexists. split; [reflexivity|].
    cbn [create_mesh fst snd meshes scene heap disposed].
    rewrite lookup_insert_eq. unfold add_child.
    rewrite (remove_absent _ _ Hscene), (remove_pushed _ _ Hscene).
    rewrite (filter_pushed _ _ Hmeshes). by repeat split.
  - intros e. eexists _, _. split; [reflexivity|]. split; [reflexivity|].
    cbn [scene]. pose proof (remove_gone e _ Hnodup) as Hgone.
    split; [by apply remove_absent | exact Hgone].
Qed.

Lemma init_well_formed : well_formed (the_world init).
Proof.
  split.
  - cbn [init the_world scene]. apply list.NoDup_cons. split; [|apply NoDup_singleton].
    intros H%list_elem_of_singleton. discriminate H.
  - intros r [Hr|Hr].
    + apply elem_of_cons in Hr as [->|Hr]; [by eexists|].
      apply list_elem_of_singleton in Hr as ->. by eexists.
    + by apply elem_of_nil in Hr.
Qed.

Lemma create_then_destroy_witness :
  ∃ w', destroy Scenario.with_sphere.1 (Some Scenario.with_sphere.2) = Some w' ∧
        meshes w' = [] ∧ scene w' = [gridHelper; ambient].
Proof.
  destruct (create_then_destroy (the_world init) Scenario.sphere_spec init_well_formed)
    as [(w' & Hdestroy & Hmeshes & Hsc & _) _].
  exists w'. split; [exact Hdestroy|]. split; [exact Hmeshes | exact Hsc].
Defined.

(** ** The camera over several frames *)

Lemma animate_idle (st : state) (deltaTime : Qc) :
  idle st →
  animate st deltaTime
  = w ← update_camera (the_world st);
    Some (State w (keysPressed st) (onUpdateCallback st),
          (call_update st deltaTime).2 ++ [render]).
Proof.
  intros Hidle. unfold animate. specialize (Hidle deltaTime (the_world st)).
  destruct st as [w keys cb]. cbn [the_world keysPressed onUpdateCallback] in *.
  destruct (call_update (State w keys cb) deltaTime) as [w' called].
  cbn [fst snd] in *. by subst w'.
Qed.

(** X12: while game code stands still and the camera follows a mesh of the
    scene, the frames never throw, however many they are and however long
    each took, and they keep the follow target, the offset and the mesh where
    they are; the camera is at [mesh.position + cameraOffset] after them only
    if it was there before them. *)
Theorem camera_never_arrives (st : state) (deltas : list Qc) (mesh : ref) (o : Object3D) :
  idle st →
  cameraTarget (the_world st) = Some mesh →
  heap (the_world st) !! mesh = Some o →
  let offset := cameraOffset (the_world st) in
  let target :=
    Vec3 (x (position o) + x offset) (y (position o) + y offset)
         (z (position o) + z offset) in
  ∃ st', frames st deltas = Some st' ∧
         cameraTarget (the_world st') = Some mesh ∧
         cameraOffset (the_world st') = offset ∧
         heap (the_world st') = heap (the_world st) ∧
         (camera_position (the_world st') = target →
          camera_position (the_world st) = target).
Proof.
  intros Hidle Htarget Hmesh offset target. subst offset target.
  revert st Hidle Htarget Hmesh.
  induction deltas as [|dt rest IH]; intros st Hidle Htarget Hmesh.
  - exists st. by repeat split.
  - cbn [frames]. rewrite (animate_idle _ _ Hidle).
    unfold update_camera. rewrite Htarget. cbn [mbind option_bind].
    rewrite Hmesh. cbn [mbind option_bind fst].
    match goal with
    | |- context [frames ?next rest] =>
        destruct (IH next Hidle eq_refl Hmesh)
          as (st' & Hrun & Hsame & Hoffset & Hheap & Hat)
    end.
    cbn [the_world cameraOffset camera_position heap] in Hoffset, Hheap, Hat.
    exists st'. split; [exact Hrun|]. split; [exact Hsame|].
    split; [exact Hoffset|]. split; [exact Hheap|].
    intros Hthere. apply Hat in Hthere.
    by apply (lerp_reaches _ _ _ tenth_not_one).
Qed.

Lemma box_scene_followed_idle :
  idle (State (follow Scenario.with_box.1 (Some Scenario.with_box.2)
                      (Some Scenario.behind))
              ∅ (onUpdateCallback init)).
Proof. intros dt w. reflexivity. Qed.

Lemma sphere_scene_followed_idle :
  idle (State (follow Scenario.with_sphere.1 (Some Scenario.with_sphere.2) None)
              ∅ (onUpdateCallback init)).
Proof. intros dt w. reflexivity. Qed.

Lemma camera_never_arrives_witness :
  ∃ st',
    frames (State (follow Scenario.with_box.1 (Some Scenario.with_box.2)
                          (Some Scenario.behind))
                  ∅ (onUpdateCallback init))
           [num 1 / num 60; num 1 / num 2] = Some st' ∧
    cameraTarget (the_world st') = Some Scenario.with_box.2 ∧
    camera_position (the_world st') ≠ Vec3 (num 1) (num 4) (num 10).
Proof.
  destruct (camera_never_arrives _ [num 1 / num 60; num 1 / num 2]
              Scenario.with_box.2 (new_mesh Scenario.box_spec)
              box_scene_followed_idle eq_refl eq_refl)
    as (st' & Hrun & Hsame & _ & _ & Hat).
  assert (Vec3 (num 1 + 0) (num 2 + num 2) (num 3 + num 7)
          = Vec3 (num 1) (num 4) (num 10)) as Htarget
    by (f_equal; apply Qc_is_canon; reflexivity).
  exists st'. split; [exact Hrun|]. split; [exact Hsame|].
  rewrite <- Htarget. intros Hthere. apply Hat in Hthere.
  pose proof (f_equal x Hthere) as Hx. by vm_compute in Hx.
Defined.

(** X13: [camera.lookAt] ends the following: on the frames after it, with
    game code standing still, the camera stays where it is and keeps looking
    at the given point, and the frames never throw even if the mesh followed
    before was no scene object.  [camera.follow(null)] ends it too. *)
Theorem lookAt_stops_following (st : state) (px py pz : Qc) (deltas : list Qc) :
  idle st →
  let looking := State (lookAt (the_world st) px py pz) (keysPressed st)
                       (onUpdateCallback st) in
  let released := State (follow (the_world st) None None) (keysPressed st)
                        (onUpdateCallback st) in
  frames looking deltas = Some looking
  ∧ camera_position (the_world looking) = camera_position (the_world st)
  ∧ camera_target (the_world looking) = Some (Vec3 px py pz)
  ∧ frames released deltas = Some released.
Proof.
  intros Hidle looking released.
  assert (∀ st0, idle st0 → cameraTarget (the_world st0) = None →
            frames st0 deltas = Some st0) as Hstill.
  { intros st0 Hidle0 Hnone. induction deltas as [|dt rest IH]; [reflexivity|].
    cbn [frames]. rewrite (animate_idle _ _ Hidle0).
    unfold update_camera. rewrite Hnone. cbn [mbind option_bind fst].
    destruct st0 as [w keys cb]. exact IH. }
  split; [|split; [|split]]; try reflexivity.
  - apply Hstill; [exact Hidle|reflexivity].
  - apply Hstill; [exact Hidle|reflexivity].
Qed.

Lemma lookAt_stops_following_witness :
  frames (State (lookAt (follow Scenario.with_sphere.1 (Some Scenario.with_sphere.2) None)
                        0 0 0) ∅ (onUpdateCallback init))
         [num 1 / num 60; num 1 / num 60]
  = Some (State (lookAt (follow Scenario.with_sphere.1 (Some Scenario.with_sphere.2) None)
                        0 0 0) ∅ (onUpdateCallback init)).
Proof.
  destruct (lookAt_stops_following
              (State (follow Scenario.with_sphere.1 (Some Scenario.with_sphere.2) None)
                     ∅ (onUpdateCallback init))
              0 0 0 [num 1 / num 60; num 1 / num 60] sphere_scene_followed_idle)
    as (Hstill & _).
  exact Hstill.
Defined.

(** X21: [destroy] never ends the following.  For every object it returns
    a world with the same follow target, offset, camera and objects, so the
    next camera update moves the camera exactly as it would have without the
    [destroy], also when the destroyed object is the mesh being followed. *)
Theorem destroy_keeps_following (w : world) (e : ref) :
  ∃ w', destroy w (Some e) = Some w' ∧
        cameraTarget w' = cameraTarget w ∧
        cameraOffset w' = cameraOffset w ∧
        heap w' = heap w ∧
        camera_position <$> update_camera w' = camera_position <$> update_camera w ∧
        (update_camera w = None ↔ update_camera w' = None).
Proof.
  eexists. split; [reflexivity|]. cbn [cameraTarget cameraOffset heap].
  split; [reflexivity|]. split; [reflexivity|]. split; [reflexivity|].
  unfold update_camera. cbn [cameraTarget cameraOffset heap camera_position].
  destruct (cameraTarget w) as [r|]; [|by split].
  destruct (heap w !! r) as [o|]; by split.
Qed.

(** ** Lights *)

Lemma light_has_no_geometry (spec : light_spec) : has_geometry (new_light spec) = false.
Proof.
  unfold new_light.
  destruct (String.eqb (l_type spec) "directional"); [reflexivity|].
  by destruct (String.eqb (l_type spec) "point").
Qed.

(** X14: a light made by [create.light] joins the scene and not the mesh
    list.  [destroy] of the light does not throw although a light has no
    geometry and no material: it disposes of nothing and takes the light out
    of the scene, which is then as before the creation. *)
Theorem light_lifecycle (w : world) (spec : light_spec) :
  well_formed w →
  meshes (create_light w spec).1 = meshes w
  ∧ scene (create_light w spec).1 = scene w ++ [(create_light w spec).2]
  ∧ ∃ w', destroy (create_light w spec).1 (Some (create_light w spec).2) = Some w' ∧
          scene w' = scene w ∧ meshes w' = meshes w ∧ disposed w' = disposed w.
Proof.
  intros [Hnodup Hlive].
  assert (heap w !! fresh (dom (heap w)) = None) as Hfresh
    by apply not_elem_of_dom, is_fresh.
  assert (fresh (dom (heap w)) ∉ scene w) as Hscene.
  { intros Hin. destruct (Hlive _ (or_introl Hin)) as [o Ho]. congruence. }
  assert (fresh (dom (heap w)) ∉ meshes w) as Hmeshes.
  { intros Hin. destruct (Hlive _ (or_intror Hin)) as [o Ho]. congruence. }
  split; [reflexivity|]. split.
  - cbn [create_light fst snd scene]. unfold add_child.
    by rewrite (remove_absent _ _ Hscene).
  - eexists. split; [reflexivity|].
    cbn [create_light fst snd meshes scene heap disposed].
    rewrite lookup_insert_eq. unfold add_child.
    rewrite (remove_absent _ _ Hscene), (remove_pushed _ _ Hscene).
    cbn [fmap option_fmap option_map default]. unfold has_material.
    rewrite light_has_no_geometry. rewrite !app_nil_r.
    split; [reflexivity|]. split; [|reflexivity].
    clear Hnodup Hlive Hscene. induction (meshes w) as [|a l IH]; [reflexivity|].
    rewrite filter_cons, decide_True.
    + f_equal. apply IH. intros Hin. apply Hmeshes. by apply list_elem_of_further.
    + intros ->. apply Hmeshes, list_elem_of_here.
Qed.

Lemma light_lifecycle_witness :
  ∃ w', destroy (create_light (the_world init) (LightSpec "point" None None None)).1
                (Some (create_light (the_world init) (LightSpec "point" None None None)).2)
        = Some w' ∧
        scene w' = [gridHelper; ambient] ∧ disposed w' = [].
Proof.
  destruct (light_lifecycle (the_world init) (LightSpec "point" None None None)
              init_well_formed) as (_ & _ & w' & Hdestroy & Hscene & _ & Hdisposed).
  exists w'. split; [exact Hdestroy|]. split; [exact Hscene | exact Hdisposed].
Defined.

End Facts3D.

(** * Properties shared by the two engines *)

Lemma filter_twice (e : ref) (l : list ref) :
  filter (λ s, s ≠ e) (filter (λ s, s ≠ e) l) = filter (λ s, s ≠ e) l.
Proof.
  induction l as [|a l IH]; [reflexivity|].
  rewrite (filter_cons _ a l). destruct (decide (a ≠ e)) as [Hne|Heq].
  - rewrite filter_cons. rewrite decide_True by exact Hne. by rewrite IH.
  - exact IH.
Qed.

(** C5: in both engines a second [destroy] of the same entity leaves the live
    collection as the first call left it, and it completes: Engine2D's
    [destroy] has no failing path, and Engine3D's returns a world for every
    object reference. *)
Theorem destroy_idempotent :
  (∀ (w : Engine2D.world) (e : ref),
     Engine2D.destroy (Engine2D.destroy w e) e = Engine2D.destroy w e)
  ∧ (∀ (w : Engine3D.world) (e : ref),
       ∃ w1 w2, Engine3D.destroy w (Some e) = Some w1 ∧
                Engine3D.destroy w1 (Some e) = Some w2 ∧
                Engine3D.meshes w2 = Engine3D.meshes w1 ∧
                Engine3D.heap w2 = Engine3D.heap w1).
Proof.
  split.
  - intros w e. unfold Engine2D.destroy. simpl. by rewrite filter_twice.
  - intros w e. eexists _, _. split; [reflexivity|]. split; [reflexivity|].
    simpl. split; [apply filter_twice|reflexivity].
Qed.

(** A key that [keyMap] does not map, and whose normal form names nothing
    inherited from [Object.prototype], is looked up as it is. *)
Lemma has_verbatim (keyMap : literal) (held : gset string) (key : string) :
  (∀ c, c ∈ held →
        own_property (remove_spaces (toLowerCase c)) Object_prototype = None) →
  own_property (remove_spaces (toLowerCase key)) keyMap = None →
  has held (logical_or (get keyMap (remove_spaces (toLowerCase key))) (Str key))
  = bool_decide (key ∈ held).
Proof.
  intros Hcodes Hnone. unfold get. rewrite Hnone.
  destruct (own_property _ Object_prototype) as [v|] eqn:Hproto; simpl.
  - assert (key ∉ held) as Hout.
    { intros Hin. apply Hcodes in Hin. congruence. }
    rewrite (bool_decide_eq_false_2 _ Hout).
    revert Hproto. unfold Object_prototype. simpl.
    repeat (case_match; [intros [= <-]; reflexivity|]). discriminate.
  - reflexivity.
Qed.

(** Why the held set is taken to hold key codes: were ["constructor"] held,
    [keyMap] would find the inherited member and the key would not be looked
    up as written. *)
Lemma inherited_key_not_verbatim :
  Engine2D.isPressed {[ "constructor" ]} "constructor" = false ∧
  Engine3D.isPressed {[ "constructor" ]} "constructor" = false.
Proof. split; reflexivity. Qed.

(** C8: [isPressed] lower-cases the key and drops its spaces; when the result
    is an alias the canonical code is looked up in the held set, and any other
    key is looked up as written.  Two spellings with the same normal form
    therefore agree on every alias.  The held set holds key codes of keyboard
    events, none of which is, in normal form, the name of a member inherited
    from [Object.prototype].  Engine3D's aliases are Engine2D's and WASD. *)
Theorem isPressed_lookup (held : gset string) (key : string) :
  (∀ c, c ∈ held →
        own_property (remove_spaces (toLowerCase c)) Object_prototype = None) →
  let mappedKey := remove_spaces (toLowerCase key) in
  (∀ code, own_property mappedKey Engine2D.keyMap = Some (Str code) →
           Engine2D.isPressed held key = bool_decide (code ∈ held))
  ∧ (own_property mappedKey Engine2D.keyMap = None →
     Engine2D.isPressed held key = bool_decide (key ∈ held))
  ∧ (∀ code, own_property mappedKey Engine3D.keyMap = Some (Str code) →
             Engine3D.isPressed held key = bool_decide (code ∈ held))
  ∧ (own_property mappedKey Engine3D.keyMap = None →
     Engine3D.isPressed held key = bool_decide (key ∈ held))
  ∧ (∀ key', remove_spaces (toLowerCase key') = mappedKey →
             (is_Some (own_property mappedKey Engine2D.keyMap) →
              Engine2D.isPressed held key' = Engine2D.isPressed held key) ∧
             (is_Some (own_property mappedKey Engine3D.keyMap) →
              Engine3D.isPressed held key' = Engine3D.isPressed held key))
  ∧ Engine2D.keyMap
    = [ ("space", Str "Space"); ("arrowleft", Str "ArrowLeft");
        ("arrowright", Str "ArrowRight"); ("arrowup", Str "ArrowUp");
        ("arrowdown", Str "ArrowDown") ]
  ∧ Engine3D.keyMap
    = Engine2D.keyMap ++ [ ("keyw", Str "KeyW"); ("keya", Str "KeyA");
                           ("keys", Str "KeyS"); ("keyd", Str "KeyD") ].
Proof.
  intros Hcodes mappedKey.
  assert (∀ keyMap k, (∀ m v, own_property m keyMap = Some v → truthy v = true) →
            is_Some (own_property (remove_spaces (toLowerCase k)) keyMap) →
            logical_or (get keyMap (remove_spaces (toLowerCase k))) (Str k)
            = get keyMap (remove_spaces (toLowerCase k))) as Halias.
  { intros keyMap k Htruthy [v Hv]. unfold logical_or, get. rewrite Hv.
    by rewrite (Htruthy _ _ Hv). }
  assert (∀ m v, own_property m Engine3D.keyMap = Some v → truthy v = true) as H3.
  { intros m v. unfold Engine3D.keyMap. simpl.
    repeat (case_match; [by intros [= <-]|]). discriminate. }
  assert (∀ m v, own_property m Engine2D.keyMap = Some v → truthy v = true) as H2.
  { intros m v. unfold Engine2D.keyMap. simpl.
    repeat (case_match; [by intros [= <-]|]). discriminate. }
  split; [|split; [|split; [|split; [|split; [|split]]]]].
  - intros code Hcode. unfold Engine2D.isPressed. fold mappedKey.
    unfold mappedKey. rewrite (Halias _ _ H2) by (fold mappedKey; by rewrite Hcode).
    unfold get. fold mappedKey. by rewrite Hcode.
  - intros Hnone. by apply has_verbatim.
  - intros code Hcode. unfold Engine3D.isPressed. fold mappedKey.
    unfold mappedKey. rewrite (Halias _ _ H3) by (fold mappedKey; by rewrite Hcode).
    unfold get. fold mappedKey. by rewrite Hcode.
  - intros Hnone. by apply has_verbatim.
  - intros key' Hsame. split; intros Hsome.
    + unfold Engine2D.isPressed.
      rewrite (Halias _ key H2) by exact Hsome.
      rewrite (Halias _ key' H2) by (rewrite Hsame; exact Hsome).
      by rewrite Hsame.
    + unfold Engine3D.isPressed.
      rewrite (Halias _ key H3) by exact Hsome.
      rewrite (Halias _ key' H3) by (rewrite Hsame; exact Hsome).
      by rewrite Hsame.
  - reflexivity.
  - reflexivity.
Qed.

Lemma held_are_key_codes (c : string) :
  c ∈ Scenario.held →
  own_property (remove_spaces (toLowerCase c)) Object_prototype = None.
Proof.
  unfold Scenario.held. rewrite elem_of_union, !elem_of_singleton.
  by intros [-> | ->].
Qed.

Lemma isPressed_lookup_witness :
  Engine2D.isPressed Scenario.held " SPACE " = true ∧
  Engine2D.isPressed Scenario.held "space" = Engine2D.isPressed Scenario.held " SPACE " ∧
  Engine2D.isPressed Scenario.held "Enter" = false ∧
  Engine3D.isPressed Scenario.held "key w" = true.
Proof.
  destruct (isPressed_lookup Scenario.held " SPACE " held_are_key_codes)
    as (Halias2 & _ & _ & _ & Hsame & _).
  destruct (isPressed_lookup Scenario.held "Enter" held_are_key_codes)
    as (_ & Hverbatim & _).
  destruct (isPressed_lookup Scenario.held "key w" held_are_key_codes)
    as (_ & _ & Halias3 & _).
  split; [|split; [|split]].
  - rewrite (Halias2 "Space" eq_refl). apply bool_decide_eq_true_2.
    apply elem_of_union. left. by apply elem_of_singleton.
  - apply (Hsame "space" eq_refl). exists (Str "Space"). reflexivity.
  - rewrite (Hverbatim eq_refl). apply bool_decide_eq_false_2.
    intros [H|H]%elem_of_union; apply elem_of_singleton in H; discriminate H.
  - rewrite (Halias3 "KeyW" eq_refl). apply bool_decide_eq_true_2.
    apply elem_of_union. right. by apply elem_of_singleton.
Defined.

(** ** Key events *)

Lemma alias_lookup (keyMap : literal) (held : gset string) (key code : string) :
  own_property (remove_spaces (toLowerCase key)) keyMap = Some (Str code) →
  code ≠ "" →
  has held (logical_or (get keyMap (remove_spaces (toLowerCase key))) (Str key))
  = bool_decide (code ∈ held).
Proof.
  intros Halias Hcode. unfold get, logical_or. rewrite Halias. simpl.
  by rewrite bool_decide_eq_false_2.
Qed.

Lemma keyMap2D_codes (m code : string) :
  own_property m Engine2D.keyMap = Some (Str code) → code ≠ "".
Proof.
  unfold Engine2D.keyMap. simpl.
  repeat (case_match; [by intros [= <-]|]). discriminate.
Qed.

Lemma keyMap3D_codes (m code : string) :
  own_property m Engine3D.keyMap = Some (Str code) → code ≠ "".
Proof.
  unfold Engine3D.keyMap. simpl.
  repeat (case_match; [by intros [= <-]|]). discriminate.
Qed.

Lemma held_after_events (held : gset string) (code other : string) :
  bool_decide (code ∈ {[ code ]} ∪ held) = true
  ∧ bool_decide (code ∈ held ∖ {[ code ]}) = false
  ∧ (other ≠ code →
     bool_decide (code ∈ {[ other ]} ∪ held) = bool_decide (code ∈ held)
     ∧ bool_decide (code ∈ held ∖ {[ other ]}) = bool_decide (code ∈ held)).
Proof.
  split; [|split].
  - apply bool_decide_eq_true_2, elem_of_union. left. by apply elem_of_singleton.
  - apply bool_decide_eq_false_2. rewrite elem_of_difference, elem_of_singleton.
    by intros [_ Hne].
  - intros Hne. split; apply bool_decide_ext.
    + rewrite elem_of_union, elem_of_singleton. split; [|by right].
      intros [Heq|Hin]; [congruence|exact Hin].
    + rewrite elem_of_difference, elem_of_singleton. split; [by intros [Hin _]|].
      intros Hin. split; [exact Hin|congruence].
Qed.

(** X11: in both engines, once the key with code [code] goes down
    [isPressed] answers true for every spelling of an alias of that code, and
    false once it goes up; the events of other keys do not change the
    answer, and a repeated [keydown] of a held key changes nothing.  Key
    events touch neither the world nor the callback. *)
Theorem key_events (key code : string) :
  (∀ st : Engine2D.state,
     own_property (remove_spaces (toLowerCase key)) Engine2D.keyMap = Some (Str code) →
     Engine2D.isPressed (Engine2D.keysPressed (Engine2D.keydown st code)) key = true
     ∧ Engine2D.isPressed (Engine2D.keysPressed (Engine2D.keyup st code)) key = false
     ∧ (∀ other, other ≠ code →
          Engine2D.isPressed (Engine2D.keysPressed (Engine2D.keydown st other)) key
          = Engine2D.isPressed (Engine2D.keysPressed st) key
          ∧ Engine2D.isPressed (Engine2D.keysPressed (Engine2D.keyup st other)) key
            = Engine2D.isPressed (Engine2D.keysPressed st) key)
     ∧ Engine2D.keydown (Engine2D.keydown st code) code = Engine2D.keydown st code
     ∧ Engine2D.the_world (Engine2D.keydown st code) = Engine2D.the_world st
     ∧ Engine2D.the_world (Engine2D.keyup st code) = Engine2D.the_world st)
  ∧ (∀ st : Engine3D.state,
       own_property (remove_spaces (toLowerCase key)) Engine3D.keyMap = Some (Str code) →
       Engine3D.isPressed (Engine3D.keysPressed (Engine3D.keydown st code)) key = true
       ∧ Engine3D.isPressed (Engine3D.keysPressed (Engine3D.keyup st code)) key = false
       ∧ (∀ other, other ≠ code →
            Engine3D.isPressed (Engine3D.keysPressed (Engine3D.keydown st other)) key
            = Engine3D.isPressed (Engine3D.keysPressed st) key
            ∧ Engine3D.isPressed (Engine3D.keysPressed (Engine3D.keyup st other)) key
              = Engine3D.isPressed (Engine3D.keysPressed st) key)
       ∧ Engine3D.keydown (Engine3D.keydown st code) code = Engine3D.keydown st code
       ∧ Engine3D.the_world (Engine3D.keydown st code) = Engine3D.the_world st
       ∧ Engine3D.the_world (Engine3D.keyup st code) = Engine3D.the_world st).
Proof.
  split.
  - intros st Halias. pose proof (keyMap2D_codes _ _ Halias) as Hcode.
    unfold Engine2D.isPressed. rewrite !(alias_lookup _ _ _ _ Halias Hcode).
    cbn [Engine2D.keydown Engine2D.keyup Engine2D.keysPressed Engine2D.the_world].
    destruct (held_after_events (Engine2D.keysPressed st) code code) as (Hdown & Hup & _).
    split; [exact Hdown|]. split; [exact Hup|]. split; [|split; [|by split]].
    + intros other Hne. rewrite !(alias_lookup _ _ _ _ Halias Hcode).
      by apply held_after_events.
    + unfold Engine2D.keydown. cbn [Engine2D.keysPressed Engine2D.the_world
        Engine2D.onUpdateCallback Engine2D.lastTime Engine2D.canvas_width
        Engine2D.canvas_height].
      f_equal. apply set_eq. intros c. rewrite !elem_of_union. tauto.
  - intros st Halias. pose proof (keyMap3D_codes _ _ Halias) as Hcode.
    unfold Engine3D.isPressed. rewrite !(alias_lookup _ _ _ _ Halias Hcode).
    cbn [Engine3D.keydown Engine3D.keyup Engine3D.keysPressed Engine3D.the_world].
    destruct (held_after_events (Engine3D.keysPressed st) code code) as (Hdown & Hup & _).
    split; [exact Hdown|]. split; [exact Hup|]. split; [|split; [|by split]].
    + intros other Hne. rewrite !(alias_lookup _ _ _ _ Halias Hcode).
      by apply held_after_events.
    + unfold Engine3D.keydown. cbn [Engine3D.keysPressed Engine3D.the_world
        Engine3D.onUpdateCallback].
      f_equal. apply set_eq. intros c. rewrite !elem_of_union. tauto.
Qed.

Lemma key_events_witness :
  Engine2D.isPressed
    (Engine2D.keysPressed (Engine2D.keydown (Engine2D.init (num 800) (num 600)) "ArrowLeft"))
    "Arrow Left" = true
  ∧ Engine3D.isPressed
      (Engine3D.keysPressed (Engine3D.keyup (Engine3D.keydown Engine3D.init "KeyW") "KeyW"))
      "keyW" = false.
Proof.
  destruct (key_events "Arrow Left" "ArrowLeft") as [H2 _].
  destruct (key_events "keyW" "KeyW") as [_ H3].
  destruct (H2 (Engine2D.init (num 800) (num 600)) eq_refl) as (Hdown & _).
  destruct (H3 (Engine3D.keydown Engine3D.init "KeyW") eq_refl) as (_ & Hup & _).
  split; [exact Hdown | exact Hup].
Defined.

(** * Properties of the chat application *)
Module FactsApp.
Import App.

Lemma rate_found (now1 now2 : N) (messageId : string)
    (before after : list ChatMessage) (m : ChatMessage) :
  Forall (λ m', id m' ≠ messageId) before → id m = messageId →
  rate now1 now2 messageId (before ++ m :: after)
  = if default false (rated m) then before ++ m :: after
    else before ++ mark_rated m :: feedbackMessages now1 now2 ++ after.
Proof.
  intros Hbefore Hid. unfold rate.
  assert (list_find (λ msg, id msg = messageId) (before ++ m :: after)
          = Some (length before, m)) as ->.
  { apply list_find_Some. split; [|split; [exact Hid|]].
    - by rewrite list_lookup_middle.
    - intros j y Hy Hj. rewrite lookup_app_l in Hy by exact Hj.
      rewrite Forall_lookup in Hbefore. by eapply Hbefore. }
  destruct (default false (rated m)); [reflexivity|].
  rewrite insert_app_r_alt by lia. rewrite Nat.sub_diag. cbn [insert list_insert].
  replace (S (length before)) with (length before + 1)%nat by lia.
  rewrite take_app_add, drop_app_add. cbn [take drop].
  by rewrite <- app_assoc.
Qed.

Lemma rate_unknown (now1 now2 : N) (messageId : string) (prev : list ChatMessage) :
  Forall (λ m, id m ≠ messageId) prev → rate now1 now2 messageId prev = prev.
Proof. intros Hnone. unfold rate. by rewrite (proj2 (list_find_None _ _) Hnone). Qed.

(** X15: positive feedback on a message.  An unknown id changes nothing.
    Otherwise the first message with that id is the one rated: if it is rated
    already nothing changes; if not, it is marked rated and the two feedback
    messages, themselves rated, are put right after it, every other message
    staying in place.  Feedback on the same id a second time changes
    nothing. *)
Theorem positive_feedback (now1 now2 : N) (messageId : string) (prev : list ChatMessage) :
  (Forall (λ m, id m ≠ messageId) prev → rate now1 now2 messageId prev = prev)
  ∧ (∀ before m after,
       prev = before ++ m :: after →
       Forall (λ m', id m' ≠ messageId) before → id m = messageId →
       (rated m = Some true → rate now1 now2 messageId prev = prev) ∧
       (rated m ≠ Some true →
        rate now1 now2 messageId prev
        = before ++ mark_rated m :: feedbackMessages now1 now2 ++ after ∧
        length (rate now1 now2 messageId prev) = (length prev + 2)%nat))
  ∧ (∀ now3 now4,
       rate now3 now4 messageId (rate now1 now2 messageId prev)
       = rate now1 now2 messageId prev)
  ∧ Forall (λ m, rated m = Some true) (feedbackMessages now1 now2).
Proof.
  split; [apply rate_unknown|]. split; [|split].
  - intros before m after -> Hbefore Hid.
    rewrite (rate_found _ _ _ _ _ _ Hbefore Hid). split.
    + by intros ->.
    + intros Hunrated.
      assert (default false (rated m) = false) as ->.
      { destruct (rated m) as [[|]|]; [by destruct Hunrated|reflexivity..]. }
      split; [reflexivity|]. rewrite !length_app. simpl. lia.
  - intros now3 now4.
    destruct (list_find (λ msg, id msg = messageId) prev) as [[i m]|] eqn:Hfind.
    + apply list_find_Some in Hfind as (Hi & Hid & Hfirst).
      assert (Forall (λ m', id m' ≠ messageId) (take i prev)) as Hbefore.
      { apply Forall_lookup. intros j y Hy.
        apply lookup_take_Some in Hy as [Hy Hj]. by eapply Hfirst. }
      rewrite <- (take_drop_middle prev i m Hi) at 1 2.
      rewrite (rate_found _ _ _ _ _ _ Hbefore Hid).
      destruct (default false (rated m)) eqn:Hrated.
      * rewrite (rate_found _ _ _ _ _ _ Hbefore Hid). by rewrite Hrated.
      * by rewrite (rate_found now3 now4 _ _ _ (mark_rated m) Hbefore Hid).
    + apply list_find_None in Hfind.
      by rewrite !(rate_unknown _ _ _ _ Hfind).
  - by repeat constructor.
Qed.

Lemma positive_feedback_witness :
  rate 10 11 "model-2" [Scenario.welcome; Scenario.answer]
  = [ Scenario.welcome; mark_rated Scenario.answer;
      Message "user-feedback-10" user "That was a great update!" (Some true);
      Message "model-feedback-11" model
              "Great! I'll keep that in mind for future updates." (Some true) ]
  ∧ rate 12 13 "model-2" (rate 10 11 "model-2" [Scenario.welcome; Scenario.answer])
    = rate 10 11 "model-2" [Scenario.welcome; Scenario.answer].
Proof.
  destruct (positive_feedback 10 11 "model-2" [Scenario.welcome; Scenario.answer])
    as (_ & Hfound & Hagain & _).
  split; [|apply Hagain].
  assert (Forall (λ m', id m' ≠ "model-2") [Scenario.welcome]) as Hbefore
    by (constructor; [discriminate|constructor]).
  destruct (Hfound [Scenario.welcome] Scenario.answer [] eq_refl Hbefore eq_refl)
    as [_ Hunrated].
  destruct Hunrated as [Hrate _]; [discriminate|]. exact Hrate.
Defined.

(** ** Requests to the AI service *)



(** X17: a prompt is refused, and the state left as it is, when no session
    or workspace is there, the prompt is empty or a request is under way.
    An accepted prompt sets the loading flag and adds the user's message;
    until the reply comes every further prompt is refused; and the reply,
    whatever it is, leaves the history longer by the user's message followed
    by one message of the model, with the loading flag cleared. *)
Theorem request_round_trip (now1 now2 : N) (prompt : string) (r : reply) (st : state) :
  (aiChat st = None ∨ prompt = "" ∨ isLoading st = true ∨ workspace st = None →
   send now1 prompt st = st)
  ∧ (is_Some (aiChat st) → prompt ≠ "" → isLoading st = false →
     is_Some (workspace st) →
     isLoading (send now1 prompt st) = true
     ∧ chatHistory (send now1 prompt st)
       = chatHistory st ++ [ Message ("user-" +:+ pretty now1) user prompt None ]
     ∧ generatedCode (send now1 prompt st) = generatedCode st
     ∧ (∀ now' prompt', send now' prompt' (send now1 prompt st) = send now1 prompt st)
     ∧ isLoading (receive now2 r (send now1 prompt st)) = false
     ∧ ∃ m, chatHistory (receive now2 r (send now1 prompt st))
            = chatHistory st ++ [ Message ("user-" +:+ pretty now1) user prompt None; m ]
            ∧ role m = model).
Proof.
  split.
  - unfold send. intros [-> | [-> | [-> | ->]]]; simpl;
      rewrite ?orb_true_r; reflexivity.
  - intros [c Hchat] Hprompt Hidle [ws Hws].
    assert (send now1 prompt st
            = State (workspace st) (aiChat st) true (generatedCode st)
                (chatHistory st ++ [ Message ("user-" +:+ pretty now1) user prompt None ]))
      as ->.
    { unfold send. rewrite Hchat, Hws, Hidle.
      by rewrite (bool_decide_eq_false_2 _ Hprompt). }
    cbn [isLoading chatHistory generatedCode].
    split; [reflexivity|]. split; [reflexivity|]. split; [reflexivity|]. split.
    { intros now' prompt'. unfold send at 1. cbn [isLoading].
      by rewrite !orb_true_r. }
    destruct r as [e|t j].
    + split; [reflexivity|]. eexists. cbn [receive chatHistory].
      by rewrite <- app_assoc.
    + unfold receive. destruct (read t j) as [explanation code].
      split; [reflexivity|]. eexists. cbn [chatHistory].
      by rewrite <- app_assoc.
Qed.

Lemma request_round_trip_witness :
  isLoading (send 3 "add a coin" Scenario.chatting) = true
  ∧ send 4 "and an enemy" (send 3 "add a coin" Scenario.chatting)
    = send 3 "add a coin" Scenario.chatting
  ∧ isLoading (receive 5 (rejected not_an_Error) (send 3 "add a coin" Scenario.chatting))
    = false.
Proof.
  destruct (request_round_trip 3 5 "add a coin" (rejected not_an_Error) Scenario.chatting)
    as [_ Haccepted].
  assert ("add a coin" ≠ "") as Hprompt by discriminate.
  destruct (Haccepted (mk_is_Some _ _ eq_refl) Hprompt eq_refl (mk_is_Some _ _ eq_refl))
    as (Hloading & _ & _ & Hrefused & Hdone & _).
  split; [exact Hloading|]. split; [apply Hrefused | exact Hdone].
Defined.

(** ** What every run of the application keeps *)

Lemma rate_length (now1 now2 : N) (messageId : string) (prev : list ChatMessage) :
  (length prev ≤ length (rate now1 now2 messageId prev))%nat.
Proof.
  unfold rate. destruct (list_find _ prev) as [[i m]|]; [|done].
  destruct (default false (rated m)); [done|].
  rewrite !length_app, length_take, length_drop, length_insert.
  cbn [feedbackMessages length]. lia.
Qed.

Lemma step_settled (st : state) (e : event) : settled st → settled (step st e).
Proof.
  intros [Hchat Hhistory]. destruct e as [now created ws|now prompt|now r|n1 n2 mid|].
  - destruct created as [error|s]; (split; [|by intros _]).
    + exact Hchat.
    + intros _. by eexists.
  - cbn [step]. unfold send.
    destruct (_ || _ || _ || _); [by split|].
    split; [exact Hchat|]. intros _. cbn [chatHistory]. by destruct (chatHistory st).
  - cbn [step]. split.
    + destruct r as [e|t j]; [exact Hchat|].
      unfold receive. by destruct (read t j).
    + intros _. destruct r as [e|t j].
      * cbn [receive chatHistory]. by destruct (chatHistory st).
      * unfold receive. destruct (read t j). cbn [chatHistory].
        by destruct (chatHistory st).
  - split; [exact Hchat|]. cbn [step handlePositiveFeedback workspace chatHistory].
    intros Hws Hempty. apply (Hhistory Hws).
    pose proof (rate_length n1 n2 mid (chatHistory st)) as Hlen.
    rewrite Hempty in Hlen. destruct (chatHistory st); [reflexivity|simpl in Hlen; lia].
  - split; by intros [ws [=]].
Qed.

(** X18: whatever the user and the AI service do, in any order, the
    application shows a workspace only while it holds a chat session, and the
    history of a shown workspace is never empty; [handleReset] brings every
    state back to the first one. *)
Theorem always_settled (events : list event) :
  settled (foldl step init events)
  ∧ ∀ more, foldl step init (events ++ reset :: more) = foldl step init more.
Proof.
  split.
  - assert (∀ st, settled st → settled (foldl step st events)) as Hall.
    { induction events as [|e rest IH]; intros st Hst; [exact Hst|].
      apply IH. by apply step_settled. }
    apply Hall. split; by intros [ws [=]].
  - intros more. by rewrite foldl_app.
Qed.

(** ** Choosing a workspace *)

(** X20: choosing a workspace without an API key, or when the AI client
    throws, leaves the workspace and the code as they were and replaces the
    history by one message of the model that begins "Error initializing AI: ";
    without a key the client is not asked at all.  With a key and a client
    that answers, the chosen workspace, the chat, the template of that
    workspace and a welcome message naming it are set together. *)
Theorem select_workspace (now : N) (API_KEY : option string)
    (initialCodeTemplates : WorkspaceType → string) (created : thrown + Chat)
    (selected : WorkspaceType) (st : state) :
  let chosen :=
    handleSelectWorkspace now
      (createAIGameChatSession API_KEY initialCodeTemplates created selected)
      selected st in
  (API_KEY = None ∨ API_KEY = Some "" →
   workspace chosen = workspace st ∧ generatedCode chosen = generatedCode st ∧
   chatHistory chosen
   = [ Message ("model-error-" +:+ pretty now) model
         "Error initializing AI: API Key is not configured. Cannot contact AI service."
         None ])
  ∧ (∀ key error, API_KEY = Some key → key ≠ "" → created = inl error →
       workspace chosen = workspace st ∧ aiChat chosen = aiChat st ∧
       generatedCode chosen = generatedCode st ∧
       ∃ reason, chatHistory chosen
                 = [ Message ("model-error-" +:+ pretty now) model
                             ("Error initializing AI: " +:+ reason) None ])
  ∧ (∀ key chat, API_KEY = Some key → key ≠ "" → created = inr chat →
       workspace chosen = Some selected ∧ aiChat chosen = Some chat ∧
       generatedCode chosen = initialCodeTemplates selected ∧
       chatHistory chosen
       = [ Message ("model-init-" +:+ pretty now) model
             ("Welcome! I've set up a " +:+ workspace_name selected
              +:+ " project for you. What would you like to create?") None ])
  ∧ isLoading chosen = isLoading st.
Proof.
  intros chosen. subst chosen. unfold createAIGameChatSession.
  split; [|split; [|split]].
  - by intros [-> | ->].
  - intros key error -> Hkey ->. cbn [default].
    rewrite (bool_decide_eq_false_2 _ Hkey). cbn [handleSelectWorkspace].
    repeat split. by eexists.
  - intros key chat -> Hkey ->. cbn [default].
    by rewrite (bool_decide_eq_false_2 _ Hkey).
  - destruct (bool_decide _); [reflexivity|]. by destruct created.
Qed.

Lemma select_workspace_witness :
  chatHistory (handleSelectWorkspace 7
                 (createAIGameChatSession (Some "k") (λ _, "<html></html>") (inr 1%nat) W3D)
                 W3D init)
  = [ Message "model-init-7" model
        "Welcome! I've set up a 3D project for you. What would you like to create?" None ]
  ∧ workspace (handleSelectWorkspace 7
                 (createAIGameChatSession None (λ _, "<html></html>") (inr 1%nat) W3D)
                 W3D init) = None.
Proof.
  destruct (select_workspace 7 (Some "k") (λ _, "<html></html>") (inr 1%nat) W3D init)
    as (_ & _ & Hready & _).
  destruct (select_workspace 7 None (λ _, "<html></html>") (inr 1%nat) W3D init)
    as (Hnokey & _).
  assert ("k" ≠ "") as Hkey by discriminate.
  destruct (Hready "k" 1%nat eq_refl Hkey eq_refl) as (_ & _ & _ & Hhistory).
  destruct (Hnokey (or_introl eq_refl)) as (Hws & _).
  split; [exact Hhistory | exact Hws].
Defined.

Lemma always_settled_witness :
  settled (foldl step init
             [ select 1 (inr (Session 0%nat "<canvas></canvas>" "Welcome!")) W2D;
               sent 2 "add a coin"; reset; received 3 (answered "{}" not_JSON) ]).
Proof.
  exact (proj1 (always_settled
                  [ select 1 (inr (Session 0%nat "<canvas></canvas>" "Welcome!")) W2D;
                    sent 2 "add a coin"; reset; received 3 (answered "{}" not_JSON) ])).
Defined.

End FactsApp.
